(** * Telegram session setup script ([setup_telegram.py])

    A shallow embedding of the script: the string builtins it calls, the
    [.env] parser [load_env], the login procedure [setup_session] and the
    entry point [main], followed by the properties of the specification. *)

From Stdlib Require Import ZArith NArith Lia.
From stdpp Require Import base option list countable gmap strings pretty.

Local Open Scope N_scope.

(** ** Python strings

    A Python [str] is a sequence of Unicode code points. *)

Module Py.

Abbreviation char := N.
Abbreviation str := (list N).

(** A literal of the source, as code points. *)
Definition lit (s : string) : str :=
  (fun a => N.of_nat (Ascii.nat_of_ascii a)) <$> String.list_ascii_of_string s.

Definition LF : char := 10.
Definition CR : char := 13.
Definition EQUALS : char := 61.
Definition HASH : char := 35.

(** [str.isspace] on one code point (CPython's [_PyUnicode_IsWhitespace]):
    the characters that [str.strip()] removes. *)
Definition isspace (c : char) : bool :=
  ((9 <=? c) && (c <=? 13)) || ((28 <=? c) && (c <=? 32))
  || (c =? 133) || (c =? 160) || (c =? 5760)
  || ((8192 <=? c) && (c <=? 8202))
  || (c =? 8232) || (c =? 8233) || (c =? 8239) || (c =? 8287) || (c =? 12288).

Fixpoint lstrip (s : str) : str :=
  match s with
  | [] => []
  | c :: r => if isspace c then lstrip r else s
  end.

Fixpoint rstrip (s : str) : str :=
  match s with
  | [] => []
  | c :: r =>
      match rstrip r with
      | [] => if isspace c then [] else [c]
      | r' => c :: r'
      end
  end.

(** [s.strip()] *)
Definition strip (s : str) : str := rstrip (lstrip s).

(** [s.startswith(c)] for a one-character prefix. *)
Definition startswith (c : char) (s : str) : bool :=
  match s with
  | [] => false
  | d :: _ => d =? c
  end.

(** [c in s] for a one-character needle. *)
Definition contains (c : char) (s : str) : bool := existsb (N.eqb c) s.

(** The text before and after the first occurrence of [sep]. *)
Fixpoint partition (sep : char) (s : str) : option (str * str) :=
  match s with
  | [] => None
  | c :: r =>
      if c =? sep then Some ([], r)
      else match partition sep r with
           | Some (a, b) => Some (c :: a, b)
           | None => None
           end
  end.

(** [s.split(sep, 1)]: at most one split, at the first separator. *)
Definition split1 (sep : char) (s : str) : list str :=
  match partition sep s with
  | Some (a, b) => [a; b]
  | None => [s]
  end.

(** Truth value of a string and of an integer. *)
Definition truthy (s : str) : bool :=
  match s with [] => false | _ => true end.

Definition truthy_int (n : Z) : bool := negb (n =? 0)%Z.

(** [str(n)] for an integer. *)
Definition str_of_int (n : Z) : str := lit (pretty n).

(** [x or d] where [x] is a string or [None]. *)
Definition or_else (x : option str) (d : str) : str :=
  match x with
  | Some s => if truthy s then s else d
  | None => d
  end.

(** [f"{x}"] where [x] is a string or [None]. *)
Definition format_opt (x : option str) : str :=
  match x with
  | Some s => s
  | None => lit "None"
  end.

(** *** Text files

    Reading in text mode translates ["\r\n"] and a lone ["\r"] to ["\n"]
    (universal newlines); [after_cr] records that the previous character
    was a carriage return. *)
Fixpoint universal_newlines (after_cr : bool) (s : str) : str :=
  match s with
  | [] => []
  | c :: r =>
      if c =? CR then LF :: universal_newlines true r
      else if (c =? LF) && after_cr then universal_newlines false r
      else c :: universal_newlines false r
  end.

(** Lines of a translated text, each with its terminator (the last one
    may have none), as iterating over a file yields them. *)
Fixpoint lines_keepends (s : str) : list str :=
  match s with
  | [] => []
  | c :: r =>
      if c =? LF then [c] :: lines_keepends r
      else match lines_keepends r with
           | [] => [[c]]
           | l :: ls => (c :: l) :: ls
           end
  end.

(** [for line in f] on a file opened with [open(path, 'r')]. *)
Definition readlines (text : str) : list str :=
  lines_keepends (universal_newlines false text).

(** [os.linesep] *)
Inductive linesep := Posix | Windows.

(** Writing in text mode translates each ["\n"] to [os.linesep]. *)
Fixpoint write_newlines (sep : linesep) (s : str) : str :=
  match s with
  | [] => []
  | c :: r =>
      if c =? LF then
        match sep with
        | Posix => LF :: write_newlines sep r
        | Windows => CR :: LF :: write_newlines sep r
        end
      else c :: write_newlines sep r
  end.

End Py.
Import Py.

(** ** Exceptions

    The exception classes the script distinguishes, with the message that
    [str(e)] gives; [sys.exit] raises [SystemExit]. *)

Inductive exn_class :=
| FileNotFoundError
| ValueError
| KeyError
| ImportError
| OtherException        (* any other subclass of Exception *)
| KeyboardInterrupt
| OtherBaseException.   (* any other class outside Exception *)

Inductive exn :=
| Exc (c : exn_class) (msg : str)
| SystemExit (code : Z).

(** [isinstance(e, Exception)] *)
Definition is_Exception (e : exn) : bool :=
  match e with
  | Exc (FileNotFoundError | ValueError | KeyError | ImportError | OtherException) _ => true
  | _ => false
  end.

(** [isinstance(e, cls)] for the classes that the [except] clauses name. *)
Definition is_FileNotFoundError (e : exn) : bool :=
  match e with Exc FileNotFoundError _ => true | _ => false end.

Definition is_ValueError_or_KeyError (e : exn) : bool :=
  match e with Exc (ValueError | KeyError) _ => true | _ => false end.

Definition is_KeyboardInterrupt (e : exn) : bool :=
  match e with Exc KeyboardInterrupt _ => true | _ => false end.

(** [str(e)] *)
Definition exn_str (e : exn) : str :=
  match e with
  | Exc _ msg => msg
  | SystemExit code => str_of_int code
  end.

(** The result of a call: a value, or a raised exception. *)
Inductive res (A : Type) :=
| Ret (a : A)
| Raise (e : exn).
Arguments Ret {A} a.
Arguments Raise {A} e.

#[global] Instance res_ret : MRet res := @Ret.
#[global] Instance res_bind : MBind res := λ A B f m,
  match m with
  | Ret a => f a
  | Raise e => Raise e
  end.

(** ** The world outside the script *)

(** The attributes of the [User] object that the script prints;
    [premium] is [None] when the attribute is absent or [None]. *)
Record user := {
  first_name : option str;
  last_name : option str;
  username : option str;
  user_id : Z;
  premium : option bool
}.

(** [hasattr(me, 'premium') and me.premium] *)
Definition has_premium (me : user) : bool :=
  match premium me with
  | Some true => true
  | _ => false
  end.

(** What the calls on one [TelegramClient] answer: the login dialogue
    with the user and the remote service lies behind them. *)
Record client := {
  start : res unit;
  is_user_authorized : res bool;
  get_me : res (option user);
  session_save : res str;
  get_entity : Z → res unit;
  disconnect : res unit
}.

Record world := {
  argv : list str;                      (* sys.argv *)
  version_info : Z * Z;                 (* sys.version_info: major, minor *)
  telethon_version : option str;        (* telethon.__version__, None: not importable *)
  os_linesep : linesep;
  builtin_int : str → Z + str;          (* int(s): the value, or the ValueError message *)
  env_file : option str;                (* text of .env, None: no such file *)
  read_error : option exn;              (* raised on reading an existing .env *)
  append_error : option exn;            (* raised on opening .env for appending *)
  TelegramClient : Z → str → client     (* by api_id and api_hash *)
}.

(** ** Effects *)

Inductive method :=
| Start
| IsUserAuthorized
| GetMe
| SessionSave
| GetEntity (id : Z)
| Disconnect.

Inductive event :=
| Print (text : str)                        (* print(text) *)
| OpenRead                                  (* open('.env', 'r') *)
| OpenAppend                                (* open('.env', 'a') *)
| Write (data : str)                        (* f.write(data) *)
| EnvGet (key : str)                        (* env_vars.get(key, '') *)
| NewClient (api_id : Z) (api_hash : str)   (* TelegramClient(StringSession(), ...) *)
| Call (m : method)                         (* a call on the client *)
| OsSystem (cmd : str).                     (* os.system(cmd) *)

Record state := {
  dotenv : option str;    (* the .env file *)
  log : list event        (* what happened so far, oldest first *)
}.

Definition M (A : Type) : Type := state → res A * state.

#[global] Instance M_ret : MRet M := λ A a st, (Ret a, st).
#[global] Instance M_bind : MBind M := λ A B f m st,
  match m st with
  | (Ret a, st') => f a st'
  | (Raise e, st') => (Raise e, st')
  end.

Definition raise {A} (e : exn) : M A := λ st, (Raise e, st).

Definition lift {A} (r : res A) : M A := λ st, (r, st).

Definition emit (e : event) : M unit := λ st,
  (Ret tt, {| dotenv := dotenv st; log := log st ++ [e] |}).

Definition print (text : str) : M unit := emit (Print text).

(** [sys.exit(code)] *)
Definition sys_exit {A} (code : Z) : M A := raise (SystemExit code).

(** [try: body / except ...: handler]: [handler e] is [None] when no
    [except] clause matches [e]. *)
Definition try_except {A} (body : M A) (handler : exn → option (M A)) : M A := λ st,
  match body st with
  | (Raise e, st') =>
      match handler e with
      | Some h => h st'
      | None => (Raise e, st')
      end
  | r => r
  end.

(** [try: body / finally: final] *)
Definition try_finally {A} (body : M A) (final : M unit) : M A := λ st,
  let (r, st') := body st in
  match final st' with
  | (Ret _, st'') => (r, st'')
  | (Raise e, st'') => (Raise e, st'')
  end.

(** A call on the client. *)
Definition call {A} (m : method) (answer : res A) : M A :=
  emit (Call m);; lift answer.

(** [open('.env', 'r')] and reading the text. *)
Definition open_read (w : world) : M str := λ st,
  let st' := {| dotenv := dotenv st; log := log st ++ [OpenRead] |} in
  match dotenv st with
  | None => (Raise (Exc FileNotFoundError
               (lit "[Errno 2] No such file or directory: '.env'")), st')
  | Some text =>
      match read_error w with
      | Some e => (Raise e, st')
      | None => (Ret text, st')
      end
  end.

(** [with open('.env', 'a') as f: f.write(data)] *)
Definition open_append_write (w : world) (data : str) : M unit := λ st,
  match append_error w with
  | Some e => (Raise e, {| dotenv := dotenv st; log := log st ++ [OpenAppend] |})
  | None =>
      (Ret tt,
       {| dotenv := Some (default [] (dotenv st) ++ write_newlines (os_linesep w) data);
          log := log st ++ [OpenAppend; Write data] |})
  end.

(** [int(s)] *)
Definition int (w : world) (s : str) : M Z :=
  match builtin_int w s with
  | inl n => mret n
  | inr msg => raise (Exc ValueError msg)
  end.

(** [env_vars.get(key, '')] *)
Definition env_get (env_vars : gmap str str) (key : str) : M str :=
  emit (EnvGet key);; mret (default [] (env_vars !! key)).

(** ** The script *)

Definition load_env_body (env_vars : gmap str str) (raw : str) : res (gmap str str) :=
  let line := strip raw in
  if truthy line && negb (startswith HASH line) && contains EQUALS line then
    match split1 EQUALS line with
    | [key; value] => Ret (<[key := value]> env_vars)
    | _ => Raise (Exc ValueError (lit "not enough values to unpack (expected 2, got 1)"))
    end
  else Ret env_vars.

Fixpoint load_env_loop (env_vars : gmap str str) (lines : list str) : res (gmap str str) :=
  match lines with
  | [] => Ret env_vars
  | raw :: rest => env_vars' ← load_env_body env_vars raw; load_env_loop env_vars' rest
  end.

Definition load_env (w : world) : M (gmap str str) :=
  try_except
    (text ← open_read w;
     lift (load_env_loop ∅ (readlines text)))
    (λ e, if is_FileNotFoundError e then
            Some (print (lit ".env file not found!");; sys_exit 1)
          else None).

Definition session_line (session_string : str) : str :=
  [LF] ++ lit "USER_SESSION_STRING=" ++ session_string ++ [LF].

Definition test_backup_channel (c : client) (w : world) (env_vars : gmap str str) : M unit :=
  backup_channel ← env_get env_vars (lit "BACKUP_CHANNEL_ID");
  if truthy backup_channel then
    try_except
      (print ([LF] ++ lit "Testing access to backup channel: " ++ backup_channel);;
       id ← int w backup_channel;
       call (GetEntity id) (get_entity c id);;
       print (lit "Backup channel access confirmed!"))
      (λ e, if is_Exception e then
              Some (print (lit "Warning: Cannot access backup channel: " ++ exn_str e);;
                    print (lit "Make sure your account is added to the backup channel"))
            else None)
  else mret tt.

Definition authorized (c : client) (w : world) (env_vars : gmap str str) : M unit :=
  print (lit "Authentication successful!");;
  me ← call GetMe (get_me c);
  me ← match me with
       | Some me => mret me
       | None => raise (Exc OtherException
                   (lit "'NoneType' object has no attribute 'first_name'"))
       end;
  print (lit "Authenticated as: " ++ format_opt (first_name me) ++ lit " "
         ++ or_else (last_name me) []);;
  print (lit "Username: @" ++ or_else (username me) (lit "no username"));;
  print (lit "User ID: " ++ str_of_int (user_id me));;
  (if has_premium me then
     print (lit "Telegram Premium: YES - can upload up to 4GB files")
   else
     print (lit "Telegram Premium: NO - limited to 2GB files");;
     print (lit "Consider upgrading to Telegram Premium for larger file uploads"));;
  session_string ← call SessionSave (session_save c);
  open_append_write w (session_line session_string);;
  print ([LF] ++ lit "Session string saved to .env file");;
  print (lit "Setup completed! You can now upload large files.");;
  test_backup_channel c w env_vars.

Definition setup_failed (e : exn) : M unit :=
  print ([LF] ++ lit "Setup failed: " ++ exn_str e);;
  print ([LF] ++ lit "Troubleshooting:");;
  print (lit "1. Make sure your phone number includes country code (+84987654321)");;
  print (lit "2. Check Telegram app for verification code");;
  print (lit "3. If you have 2FA, enter your password correctly");;
  print (lit "4. Ensure you have internet connection").

Definition setup_session (w : world) : M unit :=
  print (lit "Telegram Session Setup for IPA Bot");;
  print (lit "=====================================");;
  print (lit "This will authenticate your personal Telegram account");;
  print (lit "Make sure you have Telegram Premium for 4GB file uploads" ++ [LF]);;
  env_vars ← load_env w;
  cred ← try_except
           (a ← env_get env_vars (lit "TELEGRAM_API_ID");
            api_id ← int w a;
            api_hash ← env_get env_vars (lit "TELEGRAM_API_HASH");
            mret (api_id, api_hash))
           (λ e, if is_ValueError_or_KeyError e then
                   Some (print (lit "Missing TELEGRAM_API_ID or TELEGRAM_API_HASH in .env file");;
                         sys_exit 1)
                 else None);
  let (api_id, api_hash) := cred : Z * str in
  (if negb (truthy_int api_id) || negb (truthy api_hash) then
     print (lit "Invalid API_ID or API_HASH in .env file");; sys_exit 1
   else mret tt);;
  print (lit "Using API_ID: " ++ str_of_int api_id);;
  print (lit "Using API_HASH: " ++ take 8 api_hash ++ lit "...");;
  emit (NewClient api_id api_hash);;
  let c := TelegramClient w api_id api_hash in
  try_finally
    (try_except
       (print ([LF] ++ lit "Starting authentication...");;
        call Start (start c);;
        ok ← call IsUserAuthorized (is_user_authorized c);
        if ok : bool then authorized c w env_vars
        else print (lit "Authentication failed"))
       (λ e, if is_KeyboardInterrupt e then
               Some (print ([LF] ++ lit "Setup cancelled by user"))
             else if is_Exception e then Some (setup_failed e)
             else None))
    (call Disconnect (disconnect c)).

(** [sys.version_info < (major, minor)] *)
Definition version_lt (v : Z * Z) (major minor : Z) : bool :=
  ((v.1 <? major) || ((v.1 =? major) && (v.2 <? minor)))%Z.

(** [import telethon] *)
Definition import_telethon (w : world) : M str :=
  match telethon_version w with
  | Some v => mret v
  | None => raise (Exc ImportError (lit "No module named 'telethon'"))
  end.

Definition main (w : world) : M unit :=
  (if version_lt (version_info w) 3 6 then
     print (lit "Python 3.6+ is required");; sys_exit 1
   else mret tt);;
  try_except
    (v ← import_telethon w;
     print (lit "Telethon version: " ++ v))
    (λ e, match e with
          | Exc ImportError _ =>
              Some (print (lit "Telethon not installed. Installing...");;
                    emit (OsSystem (lit "pip3 install telethon"));;
                    print (lit "Telethon installed. Please run the script again.");;
                    sys_exit 0)
          | _ => None
          end);;
  (* asyncio.run(setup_session()) *)
  setup_session w.

(** The module: its top-level imports, then [main()]. *)
Definition script (w : world) : M unit :=
  import_telethon w;;
  main w.

Definition initial (w : world) : state := {| dotenv := env_file w; log := [] |}.

(** One run of the script in world [w]. *)
Definition run (w : world) : res unit * state := script w (initial w).

(** Standard output: the printed texts, in order. *)
Definition stdout (l : list event) : list str :=
  omap (λ e, match e with Print t => Some t | _ => None end) l.

(** ** Example worlds *)

(** The ASCII fragment of [int(s)]: surrounding whitespace, an optional
    sign, decimal digits with single underscores between them. *)
Module IntAscii.

Definition digit (c : char) : option Z :=
  if (48 <=? c) && (c <=? 57) then Some (Z.of_N (c - 48)) else None.

Fixpoint digits (acc : Z) (after_digit : bool) (s : str) : option Z :=
  match s with
  | [] => if after_digit then Some acc else None
  | c :: r =>
      match digit c with
      | Some d => digits (10 * acc + d) true r
      | None => if (c =? 95) && after_digit then digits acc false r else None
      end
  end.

Definition parse (s : str) : option Z :=
  match strip s with
  | c :: r =>
      if c =? 45 then Z.opp <$> digits 0 false r
      else if c =? 43 then digits 0 false r
      else digits 0 false (c :: r)
  | [] => None
  end.

Definition int (s : str) : Z + str :=
  match parse s with
  | Some n => inl n
  | None => inr (lit "invalid literal for int() with base 10: '" ++ s ++ lit "'")
  end.

End IntAscii.

Module Examples.

Definition alice : user :=
  {| first_name := Some (lit "Alice"); last_name := None;
     username := Some (lit "alice"); user_id := 42; premium := Some true |}.

(** A login that succeeds, on an account that can see every channel. *)
Definition good_client : client :=
  {| start := Ret tt; is_user_authorized := Ret true;
     get_me := Ret (Some alice); session_save := Ret (lit "1BVtsOK4Bu0=");
     get_entity := λ _, Ret tt; disconnect := Ret tt |}.

Definition world_with (file : option str) (c : client) : world :=
  {| argv := [lit "setup_telegram.py"]; version_info := (3, 11)%Z;
     telethon_version := Some (lit "1.36.0"); os_linesep := Posix;
     builtin_int := IntAscii.int; env_file := file;
     read_error := None; append_error := None;
     TelegramClient := λ _ _, c |}.

Definition good_env : str :=
  lit "TELEGRAM_API_ID=12345" ++ [LF] ++ lit "TELEGRAM_API_HASH=0123456789abcdef" ++ [LF]
  ++ lit "BACKUP_CHANNEL_ID=-1001234" ++ [LF].

(** A login that the service does not authorize. *)
Definition refused_client : client :=
  {| start := Ret tt; is_user_authorized := Ret false;
     get_me := Ret None; session_save := Ret [];
     get_entity := λ _, Ret tt; disconnect := Ret tt |}.


(** A login that succeeds, on an account that is not in the channel. *)
Definition outsider_client : client :=
  {| start := Ret tt; is_user_authorized := Ret true;
     get_me := Ret (Some alice); session_save := Ret (lit "1BVtsOK4Bu0=");
     get_entity := λ _, Raise (Exc ValueError (lit "Could not find the input entity"));
     disconnect := Ret tt |}.

(** A file without credentials. *)
Definition empty_env : str := lit "# Telegram" ++ [LF].

(** A file whose API id is not a number. *)
Definition bad_id_env : str :=
  lit "TELEGRAM_API_ID=abc" ++ [LF] ++ lit "TELEGRAM_API_HASH=0123456789abcdef" ++ [LF].

(** A file that binds the same key twice. *)
Definition twice_env : str := lit "A=1" ++ [LF] ++ lit "A=2" ++ [LF].

End Examples.

(** ** Notions used by the statements *)

(** The binding that one line of the file contributes, if any: the line
    is not blank, is not a comment, and has a first ['=']. *)
Definition entry (raw : str) : option (str * str) :=
  let line := strip raw in
  if truthy line && negb (startswith HASH line) then partition EQUALS line else None.

(** The values that the lines of a file give to [key], in file order. *)
Definition values_for (key : str) (lines : list str) : list str :=
  omap (λ raw, match entry raw with
               | Some (k, v) => if decide (k = key) then Some v else None
               | None => None
               end) lines.

(** The mapping [load_env] builds from the text of the file. *)
Definition parse_env (text : str) : gmap str str :=
  match load_env_loop ∅ (readlines text) with
  | Ret env_vars => env_vars
  | Raise _ => ∅
  end.

(** A line without its terminator. *)
Fixpoint chomp (l : str) : str :=
  match l with
  | [] => []
  | c :: r =>
      match r with
      | [] => if c =? LF then [] else [c]
      | _ => c :: chomp r
      end
  end.

(** The lines of a text file, without terminators. *)
Definition lines (text : str) : list str := chomp <$> readlines text.

(** A text without line breaks. *)
Definition one_line (s : str) : Prop := contains LF s = false ∧ contains CR s = false.

(** The line terminator that a written ["\n"] becomes. *)
Definition newline (sep : linesep) : str := write_newlines sep [LF].

(** *** What a run did

    Observations on the log of a run. *)

(** The keys looked up in the mapping, in order. *)
Definition gets (l : list event) : list str :=
  omap (λ e, match e with EnvGet k => Some k | _ => None end) l.

(** The texts written to the file, in order. *)
Definition writes (l : list event) : list str :=
  omap (λ e, match e with Write d => Some d | _ => None end) l.

(** The calls made on the client, in order. *)
Definition calls (l : list event) : list method :=
  omap (λ e, match e with Call m => Some m | _ => None end) l.


(** The clients created, by the credentials given to them. *)
Definition clients (l : list event) : list (Z * str) :=
  omap (λ e, match e with NewClient a h => Some (a, h) | _ => None end) l.

Definition is_open_read (e : event) : bool :=
  match e with OpenRead => true | _ => false end.

Definition is_open_append (e : event) : bool :=
  match e with OpenAppend => true | _ => false end.


(** How many events of a kind happened. *)
Definition count (p : event → bool) (l : list event) : nat :=
  length (List.filter p l).


(** *** What the file says *)

Definition api_id_text (text : str) : str :=
  default [] (parse_env text !! lit "TELEGRAM_API_ID").

Definition api_hash (text : str) : str :=
  default [] (parse_env text !! lit "TELEGRAM_API_HASH").

Definition backup_channel (text : str) : str :=
  default [] (parse_env text !! lit "BACKUP_CHANNEL_ID").

(** The interpreter is recent enough and [telethon] can be imported. *)
Definition bootstrapped (w : world) : Prop :=
  is_Some (telethon_version w) ∧ version_lt (version_info w) 3 6 = false.

(** The file [text] is read and gives the credentials [api_id] and [hash],
    which pass the check of [setup_session]. *)
Definition credentials (w : world) (text : str) (api_id : Z) (hash : str) : Prop :=
  env_file w = Some text ∧ read_error w = None
  ∧ builtin_int w (api_id_text text) = inl api_id ∧ api_id ≠ 0%Z
  ∧ hash = api_hash text ∧ hash ≠ [].

(** The login succeeds, up to and including the saving of the session
    string [s] to the file. *)
Definition saved (w : world) (text : str) (c : client) (s : str) : Prop :=
  ∃ api_id hash me,
    credentials w text api_id hash ∧ c = TelegramClient w api_id hash
    ∧ start c = Ret tt ∧ is_user_authorized c = Ret true
    ∧ get_me c = Ret (Some me) ∧ session_save c = Ret s
    ∧ append_error w = None.

(** The ways a run fails before the session string is saved. *)
Inductive fails_before_save (w : world) : Prop :=
| env_missing :
    env_file w = None → fails_before_save w
| env_unreadable e :
    read_error w = Some e → fails_before_save w
| api_id_not_numeric text msg :
    env_file w = Some text → builtin_int w (api_id_text text) = inr msg →
    fails_before_save w
| api_id_zero text :
    env_file w = Some text → builtin_int w (api_id_text text) = inl 0%Z →
    fails_before_save w
| api_hash_empty text :
    env_file w = Some text → api_hash text = [] → fails_before_save w
| not_authorized text api_id :
    env_file w = Some text → builtin_int w (api_id_text text) = inl api_id →
    is_user_authorized (TelegramClient w api_id (api_hash text)) = Ret false →
    fails_before_save w
| raised_before_save text api_id e :
    env_file w = Some text → builtin_int w (api_id_text text) = inl api_id →
    start (TelegramClient w api_id (api_hash text)) = Raise e
    ∨ is_user_authorized (TelegramClient w api_id (api_hash text)) = Raise e
    ∨ get_me (TelegramClient w api_id (api_hash text)) = Raise e
    ∨ get_me (TelegramClient w api_id (api_hash text)) = Ret None
    ∨ session_save (TelegramClient w api_id (api_hash text)) = Raise e
    ∨ append_error w = Some e →
    fails_before_save w.

(** The operations that a run attempts: on the file, on the client, on the
    system. Printing and looking a key up in the mapping are not among them. *)
Inductive operation :=
| ReadFile | AppendFile | WriteFile | CreateClient
| ClientStart | ClientIsUserAuthorized | ClientGetMe | ClientSessionSave
| ClientGetEntity | ClientDisconnect
| RunCommand.

#[global] Instance operation_eq_dec : EqDecision operation.
Proof. solve_decision. Defined.

Definition operation_of (e : event) : option operation :=
  match e with
  | Print _ | EnvGet _ => None
  | OpenRead => Some ReadFile
  | OpenAppend => Some AppendFile
  | Write _ => Some WriteFile
  | NewClient _ _ => Some CreateClient
  | Call Start => Some ClientStart
  | Call IsUserAuthorized => Some ClientIsUserAuthorized
  | Call GetMe => Some ClientGetMe
  | Call SessionSave => Some ClientSessionSave
  | Call (GetEntity _) => Some ClientGetEntity
  | Call Disconnect => Some ClientDisconnect
  | OsSystem _ => Some RunCommand
  end.

Definition attempts (l : list event) : list operation := omap operation_of l.

(** *** Failure modes *)






(** Two worlds that differ at most in the command-line arguments. *)
Definition same_but_argv (w1 w2 : world) : Prop :=
  version_info w1 = version_info w2
  ∧ telethon_version w1 = telethon_version w2
  ∧ os_linesep w1 = os_linesep w2
  ∧ builtin_int w1 = builtin_int w2
  ∧ env_file w1 = env_file w2
  ∧ read_error w1 = read_error w2
  ∧ append_error w1 = append_error w2
  ∧ TelegramClient w1 = TelegramClient w2.

(** The same world, run with other command-line arguments. *)
Definition set_argv (args : list str) (w : world) : world :=
  {| argv := args; version_info := version_info w;
     telethon_version := telethon_version w; os_linesep := os_linesep w;
     builtin_int := builtin_int w; env_file := env_file w;
     read_error := read_error w; append_error := append_error w;
     TelegramClient := TelegramClient w |}.

(** *** Weakest preconditions

    [wp m st Q]: running [m] from [st] ends with a result and a state that
    satisfy [Q]. *)
Definition wp {A} (m : M A) (st : state) (Q : res A → state → Prop) : Prop :=
  Q (m st).1 (m st).2.

(** *** More observations and worlds *)

(** The commands given to [os.system], in order. *)
Definition commands (l : list event) : list str :=
  omap (λ e, match e with OsSystem c => Some c | _ => None end) l.



(** The world in which [client.session.save()] returns [s]. *)
Definition with_session_string (s : str) (w : world) : world :=
  {| argv := argv w; version_info := version_info w;
     telethon_version := telethon_version w; os_linesep := os_linesep w;
     builtin_int := builtin_int w; env_file := env_file w;
     read_error := read_error w; append_error := append_error w;
     TelegramClient := λ api_id api_hash,
       let c := TelegramClient w api_id api_hash in
       {| start := start c; is_user_authorized := is_user_authorized c;
          get_me := get_me c; session_save := Ret s;
          get_entity := get_entity c; disconnect := disconnect c |} |}.

Module Faults.


(** A login that succeeds, on a connection that fails to close. *)
Definition stuck_client : client :=
  {| start := Ret tt; is_user_authorized := Ret true;
     get_me := Ret (Some Examples.alice); session_save := Ret (lit "1BVtsOK4Bu0=");
     get_entity := λ _, Ret tt;
     disconnect := Raise (Exc OtherException (lit "Cannot send requests while disconnected")) |}.


Definition permission_denied : exn :=
  Exc OtherException (lit "[Errno 13] Permission denied: '.env'").

(** The file is there and cannot be read. *)
Definition unreadable (w : world) : world :=
  {| argv := argv w; version_info := version_info w;
     telethon_version := telethon_version w; os_linesep := os_linesep w;
     builtin_int := builtin_int w; env_file := env_file w;
     read_error := Some permission_denied; append_error := append_error w;
     TelegramClient := TelegramClient w |}.


(** [telethon] is not installed. *)
Definition without_telethon (w : world) : world :=
  {| argv := argv w; version_info := version_info w;
     telethon_version := None; os_linesep := os_linesep w;
     builtin_int := builtin_int w; env_file := env_file w;
     read_error := read_error w; append_error := append_error w;
     TelegramClient := TelegramClient w |}.

End Faults.

(** ** Examples *)

Example readlines_ex :
  readlines (lit "A=1" ++ [CR; LF] ++ lit "B = 2 " ++ [CR] ++ lit "#c" ++ [LF] ++ lit "D")
  = [lit "A=1" ++ [LF]; lit "B = 2 " ++ [LF]; lit "#c" ++ [LF]; lit "D"].
Proof. reflexivity. Qed.

Example strip_ex : strip (lit "  k = v " ++ [LF]) = lit "k = v".
Proof. reflexivity. Qed.

Example split1_ex : split1 EQUALS (lit "a=b=c") = [lit "a"; lit "b=c"].
Proof. reflexivity. Qed.

Example str_of_int_ex : str_of_int (-1203) = lit "-1203".
Proof. reflexivity. Qed.

Example int_ex :
  IntAscii.int (lit " -1_001 ") = inl (-1001)%Z
  ∧ IntAscii.int (lit "12a") = inr (lit "invalid literal for int() with base 10: '12a'").
Proof. split; reflexivity. Qed.

(** Without [.env] the script prints its banner, fails to open the file and
    exits with status 1. *)
Example run_without_env :
  run (Examples.world_with None Examples.good_client)
  = (Raise (SystemExit 1),
     {| dotenv := None;
        log := [Print (lit "Telethon version: 1.36.0");
                Print (lit "Telegram Session Setup for IPA Bot");
                Print (lit "=====================================");
                Print (lit "This will authenticate your personal Telegram account");
                Print (lit "Make sure you have Telegram Premium for 4GB file uploads" ++ [LF]);
                OpenRead;
                Print (lit ".env file not found!")] |}).
Proof. reflexivity. Qed.

(** A login that succeeds: what is done, in order, and the file at the
    end. *)
Example run_good :
  let w := Examples.world_with (Some Examples.good_env) Examples.good_client in
  (run w).1 = Ret tt
  ∧ attempts (log (run w).2)
    = [ReadFile; CreateClient; ClientStart; ClientIsUserAuthorized; ClientGetMe;
       ClientSessionSave; AppendFile; WriteFile; ClientGetEntity; ClientDisconnect]
  ∧ dotenv (run w).2
    = Some (Examples.good_env ++ [LF] ++ lit "USER_SESSION_STRING=1BVtsOK4Bu0=" ++ [LF]).
Proof. repeat split; reflexivity. Qed.


(** ** Strings *)

Lemma partition_spec sep s a b :
  partition sep s = Some (a, b) → s = a ++ sep :: b ∧ contains sep a = false.
Proof.
  revert a b. induction s as [|c s IH]; intros a b; simpl; [done|].
  destruct (N.eqb_spec c sep) as [->|Hne].
  - intros [= <- <-]. done.
  - destruct (partition sep s) as [[a' b']|]; [|done].
    intros [= <- <-]. destruct (IH a' b' eq_refl) as [-> Hc]. split; [done|].
    simpl. rewrite Hc. destruct (N.eqb_spec sep c); [congruence|done].
Qed.

Lemma partition_None sep s :
  partition sep s = None ↔ contains sep s = false.
Proof.
  induction s as [|c s IH]; simpl; [done|].
  rewrite (N.eqb_sym sep c). destruct (c =? sep); simpl; [done|].
  rewrite <- IH. destruct (partition sep s) as [[??]|]; done.
Qed.

Lemma partition_app sep a b :
  contains sep a = false → partition sep (a ++ sep :: b) = Some (a, b).
Proof.
  induction a as [|c a IH]; simpl.
  - by rewrite N.eqb_refl.
  - rewrite (N.eqb_sym sep c). destruct (c =? sep); simpl; [done|].
    intros H. by rewrite IH.
Qed.

Lemma contains_cons c d s : contains c (d :: s) = (d =? c) || contains c s.
Proof. unfold contains. simpl. by rewrite (N.eqb_sym c d). Qed.

Lemma contains_app c a b : contains c (a ++ b) = contains c a || contains c b.
Proof. apply existsb_app. Qed.

Lemma lstrip_app a b :
  lstrip (a ++ b) = match lstrip a with [] => lstrip b | _ => lstrip a ++ b end.
Proof.
  induction a as [|c a IH]; simpl; [done|].
  destruct (isspace c); done.
Qed.

Lemma rstrip_app_nonempty a b : rstrip b ≠ [] → rstrip (a ++ b) = a ++ rstrip b.
Proof.
  intros Hb. induction a as [|c a IH]; simpl; [done|].
  rewrite IH. destruct (a ++ rstrip b) eqn:E; [|done].
  apply app_eq_nil in E as [_ ?]. done.
Qed.

Lemma rstrip_snoc_space a c : isspace c = true → rstrip (a ++ [c]) = rstrip a.
Proof.
  intros Hc. induction a as [|d a IH]; simpl.
  - by rewrite Hc.
  - by rewrite IH.
Qed.

Lemma rstrip_snoc_nonspace a c : isspace c = false → rstrip (a ++ [c]) = a ++ [c].
Proof.
  intros Hc. rewrite rstrip_app_nonempty; simpl; by rewrite Hc.
Qed.

Lemma strip_snoc_space s c : isspace c = true → strip (s ++ [c]) = strip s.
Proof.
  intros Hc. unfold strip. rewrite lstrip_app.
  destruct (lstrip s) as [|d r] eqn:E.
  - simpl. by rewrite Hc.
  - by rewrite rstrip_snoc_space.
Qed.

Lemma length_lstrip s : (length (lstrip s) ≤ length s)%nat.
Proof. induction s as [|c s IH]; simpl; [done|]. destruct (isspace c); simpl; lia. Qed.

Lemma length_rstrip s : (length (rstrip s) ≤ length s)%nat.
Proof.
  induction s as [|c s IH]; simpl; [done|].
  destruct (rstrip s); [destruct (isspace c)|]; simpl in *; lia.
Qed.

(** A string without surrounding whitespace is a fixed point of both halves
    of [strip]. *)
Lemma strip_fixed s : strip s = s → lstrip s = s ∧ rstrip s = s.
Proof.
  intros H. assert (lstrip s = s) as Hl.
  { destruct s as [|c r]; [done|]. simpl. destruct (isspace c) eqn:Hc; [|done].
    exfalso. apply (f_equal length) in H. unfold strip in H. simpl in H.
    rewrite Hc in H. pose proof (length_rstrip (lstrip r)).
    pose proof (length_lstrip r). lia. }
  split; [done|]. unfold strip in H. by rewrite Hl in H.
Qed.

Lemma lstrip_fixed_head c r : lstrip (c :: r) = c :: r → isspace c = false.
Proof.
  simpl. destruct (isspace c); [|done]. intros H.
  apply (f_equal length) in H. pose proof (length_lstrip r). simpl in H. lia.
Qed.

(** The text [k=v] is unchanged by [strip] when neither [k] nor [v] has
    surrounding whitespace. *)
Lemma strip_key_value k v :
  strip k = k → strip v = v → strip (k ++ EQUALS :: v) = k ++ EQUALS :: v.
Proof.
  intros [Hk _]%strip_fixed [_ Hv]%strip_fixed. unfold strip.
  assert (lstrip (k ++ EQUALS :: v) = k ++ EQUALS :: v) as ->.
  { destruct k as [|c k]; [done|].
    apply lstrip_fixed_head in Hk. simpl. by rewrite Hk. }
  destruct v as [|d v].
  - by apply rstrip_snoc_nonspace.
  - replace (k ++ EQUALS :: d :: v) with ((k ++ [EQUALS]) ++ d :: v)
      by (by rewrite <- app_assoc).
    rewrite rstrip_app_nonempty; rewrite Hv; [|done]. by rewrite <- app_assoc.
Qed.

Lemma startswith_key_value k v :
  startswith HASH k = false → startswith HASH (k ++ EQUALS :: v) = false.
Proof. destruct k; done. Qed.

(** ** The parser *)

Lemma load_env_body_entry env_vars raw :
  load_env_body env_vars raw
  = Ret (match entry raw with
         | Some (k, v) => <[k := v]> env_vars
         | None => env_vars
         end).
Proof.
  unfold load_env_body, entry, split1.
  destruct (truthy (strip raw) && negb (startswith HASH (strip raw))); simpl; [|done].
  destruct (partition EQUALS (strip raw)) as [[k v]|] eqn:E.
  - apply partition_spec in E as [E _].
    assert (contains EQUALS (strip raw) = true) as ->; [|done].
    rewrite E, contains_app. simpl. by rewrite orb_true_r.
  - apply partition_None in E. by rewrite E.
Qed.

(** The loop never raises, and each key ends up with the value of the last
    line that binds it. *)
Lemma load_env_loop_lookup env_vars ls :
  ∃ env', load_env_loop env_vars ls = Ret env' ∧
    ∀ key, env' !! key = match last (values_for key ls) with
                         | Some v => Some v
                         | None => env_vars !! key
                         end.
Proof.
  revert env_vars. induction ls as [|raw ls IH]; intros env_vars; simpl.
  - by exists env_vars.
  - rewrite load_env_body_entry. simpl.
    destruct (IH (match entry raw with
                  | Some (k, v) => <[k := v]> env_vars
                  | None => env_vars
                  end)) as (env' & -> & Hl).
    exists env'. split; [done|]. intros key. rewrite Hl.
    unfold values_for. simpl. fold (values_for key ls).
    destruct (entry raw) as [[k v]|]; simpl; [|done].
    destruct (decide (k = key)) as [->|Hne].
    + rewrite last_cons. destruct (last (values_for key ls)); [done|].
      by rewrite lookup_insert_eq.
    + by rewrite lookup_insert_ne.
Qed.

Lemma load_env_loop_parse_env text :
  load_env_loop ∅ (readlines text) = Ret (parse_env text).
Proof.
  unfold parse_env. by destruct (load_env_loop_lookup ∅ (readlines text)) as (e & -> & _).
Qed.

Lemma parse_env_lookup text key :
  parse_env text !! key = last (values_for key (readlines text)).
Proof.
  unfold parse_env.
  destruct (load_env_loop_lookup ∅ (readlines text)) as (e & -> & H).
  rewrite H, lookup_empty. by destruct (last _).
Qed.

(** What [load_env] does on a readable file. *)
Lemma load_env_run w st text :
  dotenv st = Some text → read_error w = None →
  load_env w st
  = (Ret (parse_env text), {| dotenv := dotenv st; log := log st ++ [OpenRead] |}).
Proof.
  intros Hf Hr. unfold load_env, try_except, open_read, lift, mbind, M_bind.
  rewrite Hf, Hr. simpl. by rewrite load_env_loop_parse_env.
Qed.

(** C10: each line is split on its first ['='] only: the key is the text
    before it and the value is everything after it, further ['='] included;
    a line that is empty after stripping, starts with ['#'] or has no ['=']
    leaves the mapping as it was; and every line is of one of these kinds. *)
Theorem load_env_body_first_equals env_vars raw :
  (∀ key value,
     strip raw = key ++ EQUALS :: value → contains EQUALS key = false →
     startswith HASH (strip raw) = false →
     load_env_body env_vars raw = Ret (<[key := value]> env_vars))
  ∧ (strip raw = [] ∨ startswith HASH (strip raw) = true
     ∨ contains EQUALS (strip raw) = false →
     load_env_body env_vars raw = Ret env_vars)
  ∧ ((strip raw = [] ∨ startswith HASH (strip raw) = true
      ∨ contains EQUALS (strip raw) = false)
     ∨ ∃ key value, strip raw = key ++ EQUALS :: value ∧ contains EQUALS key = false
                    ∧ startswith HASH (strip raw) = false).
Proof.
  split; [|split].
  - intros key value Hs Hk Hh. rewrite load_env_body_entry. unfold entry.
    rewrite Hh, Hs, (partition_app _ _ _ Hk). by destruct key.
  - intros H. rewrite load_env_body_entry. unfold entry.
    destruct H as [->|[->|H]]; [done|by rewrite andb_false_r|].
    apply partition_None in H. rewrite H. by destruct (_ && _).
  - destruct (strip raw) as [|c r] eqn:Hs; [by left; left|].
    destruct (startswith HASH (c :: r)) eqn:Hh; [by left; right; left|].
    destruct (partition EQUALS (c :: r)) as [[k v]|] eqn:Hp.
    + right. exists k, v. by apply partition_spec in Hp as [-> ?].
    + left. right. right. by apply partition_None.
Qed.

Lemma load_env_body_first_equals_witness :
  load_env_body ∅ (lit "  URL=http://h/?a=1&b=2 " ++ [LF])
  = Ret (<[lit "URL" := lit "http://h/?a=1&b=2"]> ∅)
  ∧ load_env_body ∅ (lit "# URL=x" ++ [LF]) = Ret ∅.
Proof.
  split.
  - apply (load_env_body_first_equals ∅ (lit "  URL=http://h/?a=1&b=2 " ++ [LF]));
      reflexivity.
  - apply (load_env_body_first_equals ∅ (lit "# URL=x" ++ [LF])).
    right. left. reflexivity.
Defined.

(** C6: one read of the file yields a mapping with unique keys: every key is
    bound to one value, and when several lines bind the same key it is the
    value of the last of them. *)
Theorem load_env_unique_keys w st text :
  dotenv st = Some text → read_error w = None →
  ∃ env_vars st',
    load_env w st = (Ret env_vars, st')
    ∧ NoDup (map_to_list env_vars).*1
    ∧ (∀ key v1 v2, (key, v1) ∈ map_to_list env_vars →
                    (key, v2) ∈ map_to_list env_vars → v1 = v2)
    ∧ ∀ key, env_vars !! key = last (values_for key (readlines text)).
Proof.
  intros Hf Hr. eexists _, _. split; [by apply load_env_run|].
  split; [apply NoDup_fst_map_to_list|]. split.
  - intros key v1 v2 H1%elem_of_map_to_list H2%elem_of_map_to_list. congruence.
  - apply parse_env_lookup.
Qed.

(** ** Lines of a text file *)

Lemma one_line_cons c s : one_line (c :: s) ↔ c ≠ LF ∧ c ≠ CR ∧ one_line s.
Proof.
  unfold one_line. rewrite !contains_cons.
  destruct (N.eqb_spec c LF), (N.eqb_spec c CR); simpl; intuition congruence.
Qed.

Lemma universal_newlines_LF b a rest :
  universal_newlines b (a ++ LF :: rest)
  = universal_newlines b (a ++ [LF]) ++ universal_newlines false rest.
Proof.
  revert b. induction a as [|c a IH]; intros b; simpl.
  - by destruct b.
  - destruct (c =? CR); [by rewrite IH|].
    destruct ((c =? LF) && b); by rewrite IH.
Qed.

Lemma universal_newlines_ends_LF b a :
  a ≠ [] ∨ b = false → ∃ x, universal_newlines b (a ++ [LF]) = x ++ [LF].
Proof.
  revert b. induction a as [|c a IH]; intros b Hab.
  - destruct Hab as [?| ->]; [done|]. by exists [].
  - simpl. destruct (c =? CR).
    + destruct a as [|d a]; [by exists []|].
      destruct (IH true) as [x Hx]; [by left|]. exists (LF :: x). by rewrite Hx.
    + destruct ((c =? LF) && b).
      * apply IH. by right.
      * destruct (IH false) as [x Hx]; [by right|]. exists (c :: x). by rewrite Hx.
Qed.

Lemma universal_newlines_one_line b a rest :
  one_line a →
  universal_newlines b (a ++ rest)
  = a ++ universal_newlines (match a with [] => b | _ => false end) rest.
Proof.
  revert b. induction a as [|c a IH]; intros b Ha; [done|].
  apply one_line_cons in Ha as (Hlf & Hcr & Ha). simpl.
  destruct (N.eqb_spec c CR); [done|]. destruct (N.eqb_spec c LF); [done|]. simpl.
  rewrite IH by done. by destruct a.
Qed.

Lemma lines_keepends_nil s : lines_keepends s = [] → s = [].
Proof.
  destruct s as [|c s]; [done|]. simpl.
  destruct (c =? LF); [done|]. by destruct (lines_keepends s).
Qed.

Lemma lines_keepends_LF x rest :
  lines_keepends (x ++ LF :: rest) = lines_keepends (x ++ [LF]) ++ lines_keepends rest.
Proof.
  induction x as [|c x IH]; simpl; [done|].
  destruct (c =? LF); [by rewrite IH|].
  rewrite IH. destruct (lines_keepends (x ++ [LF])) eqn:E; [|done].
  apply lines_keepends_nil in E. by destruct x.
Qed.

Lemma lines_keepends_one_line a :
  contains LF a = false → lines_keepends (a ++ [LF]) = [a ++ [LF]].
Proof.
  induction a as [|c a IH]; [done|].
  rewrite contains_cons. simpl. destruct (c =? LF); simpl; [done|].
  intros H. by rewrite IH.
Qed.

Lemma write_newlines_app sep a b :
  write_newlines sep (a ++ b) = write_newlines sep a ++ write_newlines sep b.
Proof.
  induction a as [|c a IH]; simpl; [done|].
  destruct (c =? LF), sep; simpl; by rewrite IH.
Qed.

Lemma write_newlines_one_line sep a : contains LF a = false → write_newlines sep a = a.
Proof.
  induction a as [|c a IH]; [done|].
  rewrite contains_cons. simpl. destruct (c =? LF); simpl; [done|].
  intros H. by rewrite IH.
Qed.

(** After a line terminator has been appended to a text, what follows it is
    read as lines of its own. *)
Lemma readlines_after_newline sep text rest :
  readlines (text ++ newline sep ++ rest)
  = readlines (text ++ newline sep) ++ readlines rest.
Proof.
  unfold readlines.
  assert (∃ a, text ++ newline sep = a ++ [LF] ∧
               ∀ r, text ++ newline sep ++ r = a ++ LF :: r) as (a & Ha & Har).
  { destruct sep; simpl.
    - by exists text.
    - exists (text ++ [CR]). split; [by rewrite <- app_assoc|].
      intros r. by rewrite <- app_assoc. }
  rewrite Har, Ha, universal_newlines_LF.
  destruct (universal_newlines_ends_LF false a) as [x Hx]; [by right|].
  rewrite Hx, <- app_assoc. simpl. rewrite lines_keepends_LF. done.
Qed.

Lemma readlines_one_line sep body :
  one_line body → readlines (body ++ newline sep) = [body ++ [LF]].
Proof.
  intros Hb. unfold readlines. rewrite universal_newlines_one_line by done.
  assert (universal_newlines (match body with [] => false | _ => false end) (newline sep)
          = [LF]) as ->.
  { by destruct body, sep. }
  apply lines_keepends_one_line, Hb.
Qed.

Lemma one_line_app a b : one_line a → one_line b → one_line (a ++ b).
Proof.
  unfold one_line. rewrite !contains_app. intros [-> ->] [-> ->]. done.
Qed.

(** The text that [open_append_write] adds for a session string of one
    line: a line break, the line, a line break. *)
Lemma write_session_line sep s :
  contains LF s = false →
  write_newlines sep (session_line s)
  = newline sep ++ (lit "USER_SESSION_STRING=" ++ s) ++ newline sep.
Proof.
  intros Hs. unfold session_line, newline.
  rewrite !write_newlines_app, (write_newlines_one_line _ s Hs).
  rewrite (write_newlines_one_line _ (lit _)) by done. by rewrite <- !app_assoc.
Qed.

Lemma readlines_session_line sep text s :
  one_line s →
  readlines (text ++ write_newlines sep (session_line s))
  = readlines (text ++ newline sep) ++ [lit "USER_SESSION_STRING=" ++ s ++ [LF]].
Proof.
  intros Hs. rewrite write_session_line by apply Hs.
  rewrite readlines_after_newline.
  rewrite (readlines_one_line sep (lit "USER_SESSION_STRING=" ++ s)).
  - by rewrite <- app_assoc.
  - apply one_line_app; [by split|done].
Qed.

(** ** Key=value lines *)

Lemma entry_key_value raw k v :
  strip raw = k ++ EQUALS :: v → contains EQUALS k = false →
  startswith HASH k = false → entry raw = Some (k, v).
Proof.
  intros Hs Hk Hh. unfold entry.
  rewrite Hs, (startswith_key_value _ _ Hh), (partition_app _ _ _ Hk). by destruct k.
Qed.

Lemma entry_strip raw k v : entry raw = Some (k, v) → strip raw = k ++ EQUALS :: v.
Proof.
  unfold entry. destruct (_ && _); [|done]. by intros [-> _]%partition_spec.
Qed.

Lemma strip_line k v raw :
  raw = k ++ EQUALS :: v ∨ raw = k ++ EQUALS :: v ++ [LF] →
  strip k = k → strip v = v → strip raw = k ++ EQUALS :: v.
Proof.
  intros [-> | ->] Hk Hv; [by apply strip_key_value|].
  replace (k ++ EQUALS :: v ++ [LF]) with ((k ++ EQUALS :: v) ++ [LF])
    by (by rewrite <- app_assoc).
  rewrite strip_snoc_space by done. by apply strip_key_value.
Qed.

Lemma values_for_cons key raw ls :
  values_for key (raw :: ls)
  = match entry raw with
    | Some (k, v) => if decide (k = key) then v :: values_for key ls else values_for key ls
    | None => values_for key ls
    end.
Proof.
  unfold values_for. simpl. destruct (entry raw) as [[k v]|]; [|done].
  by destruct (decide (k = key)).
Qed.

Lemma values_for_app key l1 l2 :
  values_for key (l1 ++ l2) = values_for key l1 ++ values_for key l2.
Proof. apply omap_app. Qed.

Lemma values_for_unbound key ls :
  (∀ raw v, raw ∈ ls → strip raw ≠ key ++ EQUALS :: v) → values_for key ls = [].
Proof.
  induction ls as [|raw ls IH]; intros H; [done|].
  rewrite values_for_cons, IH by (intros r v Hr; apply H; by right).
  destruct (entry raw) as [[k v]|] eqn:E; [|done].
  destruct (decide (k = key)) as [->|]; [|done].
  apply entry_strip in E. destruct (H raw v); [by left|done].
Qed.

Lemma values_for_last key pre raw post v :
  entry raw = Some (key, v) → values_for key post = [] →
  last (values_for key (pre ++ raw :: post)) = Some v.
Proof.
  intros He Hp. rewrite values_for_app, values_for_cons.
  rewrite He, Hp, decide_True by done. apply last_snoc.
Qed.

(** C2, as amended: a line [k=v] of the file binds [k] to [v] when no later
    line of the file binds [k]; and after the session line has been
    appended, reading the file again binds [USER_SESSION_STRING] to the
    session string. *)
Theorem load_env_last_key_value w st text :
  dotenv st = Some text → read_error w = None →
  (∀ pre raw post k v,
     readlines text = pre ++ raw :: post →
     raw = k ++ EQUALS :: v ∨ raw = k ++ EQUALS :: v ++ [LF] →
     contains EQUALS k = false → startswith HASH k = false →
     strip k = k → strip v = v →
     (∀ raw' v', raw' ∈ post → strip raw' ≠ k ++ EQUALS :: v') →
     ∃ env_vars st', load_env w st = (Ret env_vars, st') ∧ env_vars !! k = Some v)
  ∧ (∀ s, strip s = s → one_line s → append_error w = None →
     ∃ st1 env_vars st2,
       open_append_write w (session_line s) st = (Ret tt, st1)
       ∧ load_env w st1 = (Ret env_vars, st2)
       ∧ env_vars !! lit "USER_SESSION_STRING" = Some s).
Proof.
  intros Hf Hr. split.
  - intros pre raw post k v Hl Hraw Hk Hh Hsk Hsv Hpost.
    eexists _, _. split; [by apply load_env_run|].
    rewrite parse_env_lookup, Hl. apply values_for_last.
    + apply entry_key_value; [by apply strip_line|done|done].
    + by apply values_for_unbound.
  - intros s Hs Hone Ha. unfold open_append_write. rewrite Ha, Hf.
    eexists _, _, _. split; [done|]. split.
    { by apply (load_env_run w _ (text ++ write_newlines (os_linesep w) (session_line s))). }
    rewrite parse_env_lookup, readlines_session_line by done.
    apply (values_for_last _ _ _ []); [|done].
    apply entry_key_value; [|done|done].
    apply (strip_line (lit "USER_SESSION_STRING") s); [by right|done|done].
Qed.

Lemma load_env_last_key_value_witness :
  let w := Examples.world_with (Some Examples.twice_env) Examples.good_client in
  (∃ env_vars st', load_env w (initial w) = (Ret env_vars, st')
                   ∧ env_vars !! lit "A" = Some (lit "2"))
  ∧ (∃ st1 env_vars st2,
       open_append_write w (session_line (lit "1BVtsOK4Bu0=")) (initial w) = (Ret tt, st1)
       ∧ load_env w st1 = (Ret env_vars, st2)
       ∧ env_vars !! lit "USER_SESSION_STRING" = Some (lit "1BVtsOK4Bu0=")).
Proof.
  intros w.
  destruct (load_env_last_key_value w (initial w) Examples.twice_env eq_refl eq_refl)
    as [H1 H2].
  split.
  - apply (H1 [lit "A=1" ++ [LF]] (lit "A=2" ++ [LF]) [] (lit "A") (lit "2"));
      try reflexivity.
    + right. reflexivity.
    + intros raw' v' Hin. inversion Hin.
  - apply H2; [reflexivity | split; reflexivity | reflexivity].
Defined.

(** C2 as it is stated fails: the file below contains the line [A=1], whose
    key and value meet the side conditions, and [load_env] binds [A] to
    ["2"], the value of the later line [A=2]. *)
Lemma load_env_key_value_overridden :
  let text := Examples.twice_env in
  let w := Examples.world_with (Some text) Examples.good_client in
  let k := lit "A" in
  let v := lit "1" in
  (k ++ EQUALS :: v ++ [LF]) ∈ readlines text
  ∧ contains EQUALS k = false ∧ startswith HASH k = false
  ∧ strip k = k ∧ strip v = v
  ∧ (∃ env_vars st', load_env w (initial w) = (Ret env_vars, st')
                     ∧ env_vars !! k = Some (lit "2"))
  ∧ ¬ (∃ env_vars st', load_env w (initial w) = (Ret env_vars, st')
                       ∧ env_vars !! k = Some v).
Proof.
  intros text w k v.
  assert (load_env w (initial w)
          = (Ret (parse_env text),
             {| dotenv := Some text; log := [OpenRead] |})) as Hrun.
  { by apply load_env_run. }
  split; [by left|]. do 4 (split; [reflexivity|]). split.
  - eexists _, _. split; [exact Hrun|]. rewrite parse_env_lookup. reflexivity.
  - intros (env_vars & st' & H & Hk). rewrite Hrun in H.
    injection H as <- _. rewrite parse_env_lookup in Hk. vm_compute in Hk. done.
Qed.

Lemma load_env_unique_keys_witness :
  let w := Examples.world_with (Some Examples.twice_env) Examples.good_client in
  ∃ env_vars st', load_env w (initial w) = (Ret env_vars, st')
                  ∧ env_vars !! lit "A" = Some (lit "2").
Proof.
  intros w.
  destruct (load_env_unique_keys w (initial w) Examples.twice_env eq_refl eq_refl)
    as (env_vars & st' & H & _ & _ & Hl).
  exists env_vars, st'. split; [exact H|]. rewrite Hl. reflexivity.
Defined.

(** ** Reasoning about runs *)

Section wp.
Context {A B : Type}.
Implicit Types (st : state).

Lemma wp_ret (a : A) st Q : Q (Ret a) st → wp (mret a) st Q.
Proof. done. Qed.

Lemma wp_bind (m : M A) (f : A → M B) st Q :
  wp m st (λ r st', match r with
                    | Ret a => wp (f a) st' Q
                    | Raise e => Q (Raise e) st'
                    end) →
  wp (m ≫= f) st Q.
Proof.
  unfold wp, mbind, M_bind. by destruct (m st) as [[a|e] st'].
Qed.

Lemma wp_raise e st (Q : res A → state → Prop) : Q (Raise e) st → wp (raise e) st Q.
Proof. done. Qed.

Lemma wp_sys_exit code st (Q : res A → state → Prop) :
  Q (Raise (SystemExit code)) st → wp (sys_exit code) st Q.
Proof. done. Qed.

Lemma wp_lift (r : res A) st Q : Q r st → wp (lift r) st Q.
Proof. done. Qed.

Lemma wp_call m (r : res A) d l Q :
  Q r {| dotenv := d; log := l ++ [Call m] |} →
  wp (call m r) {| dotenv := d; log := l |} Q.
Proof. done. Qed.

Lemma wp_try_except (body : M A) handler st Q :
  wp body st (λ r st', match r with
                       | Ret a => Q (Ret a) st'
                       | Raise e => match handler e with
                                    | Some h => wp h st' Q
                                    | None => Q (Raise e) st'
                                    end
                       end) →
  wp (try_except body handler) st Q.
Proof.
  unfold wp, try_except. destruct (body st) as [[a|e] st']; [done|].
  simpl. by destruct (handler e).
Qed.

Lemma wp_try_finally (body : M A) final st Q :
  wp body st (λ r st', wp final st' (λ r' st'', match r' with
                                                | Ret _ => Q r st''
                                                | Raise e => Q (Raise e) st''
                                                end)) →
  wp (try_finally body final) st Q.
Proof.
  unfold wp, try_finally. destruct (body st) as [r st']. simpl.
  by destruct (final st') as [[[]|e] st''].
Qed.

End wp.

Lemma wp_emit e d l Q :
  Q (Ret tt) {| dotenv := d; log := l ++ [e] |} →
  wp (emit e) {| dotenv := d; log := l |} Q.
Proof. done. Qed.

Lemma wp_print text d l Q :
  Q (Ret tt) {| dotenv := d; log := l ++ [Print text] |} →
  wp (print text) {| dotenv := d; log := l |} Q.
Proof. done. Qed.

Lemma wp_int w s st Q :
  match builtin_int w s with
  | inl n => Q (Ret n) st
  | inr msg => Q (Raise (Exc ValueError msg)) st
  end → wp (int w s) st Q.
Proof. unfold wp, int. by destruct (builtin_int w s). Qed.

Lemma wp_env_get env_vars key d l Q :
  Q (Ret (default [] (env_vars !! key))) {| dotenv := d; log := l ++ [EnvGet key] |} →
  wp (env_get env_vars key) {| dotenv := d; log := l |} Q.
Proof. done. Qed.

Lemma wp_open_append_write w data d l Q :
  match append_error w with
  | Some e => Q (Raise e) {| dotenv := d; log := l ++ [OpenAppend] |}
  | None => Q (Ret tt)
              {| dotenv := Some (default [] d ++ write_newlines (os_linesep w) data);
                 log := l ++ [OpenAppend; Write data] |}
  end → wp (open_append_write w data) {| dotenv := d; log := l |} Q.
Proof. unfold wp, open_append_write. by destruct (append_error w). Qed.

Lemma wp_load_env w d l Q :
  match d with
  | None => Q (Raise (SystemExit 1))
              {| dotenv := None;
                 log := l ++ [OpenRead; Print (lit ".env file not found!")] |}
  | Some text =>
      match read_error w with
      | Some e =>
          if is_FileNotFoundError e then
            Q (Raise (SystemExit 1))
              {| dotenv := Some text;
                 log := l ++ [OpenRead; Print (lit ".env file not found!")] |}
          else Q (Raise e) {| dotenv := Some text; log := l ++ [OpenRead] |}
      | None => Q (Ret (parse_env text)) {| dotenv := Some text; log := l ++ [OpenRead] |}
      end
  end → wp (load_env w) {| dotenv := d; log := l |} Q.
Proof.
  unfold wp, load_env, try_except, open_read, lift, mbind, M_bind.
  destruct d as [text|]; simpl.
  - destruct (read_error w) as [e|]; simpl.
    + destruct (is_FileNotFoundError e); simpl; rewrite <- ?app_assoc; done.
    + by rewrite load_env_loop_parse_env.
  - by rewrite <- app_assoc.
Qed.

Ltac wp_norm := lazy beta iota zeta delta [dotenv log fst snd].

(** Case analysis on what a [match] of the goal waits for: by a
    hypothesis that tells its value if there is one, else by cases. *)
Ltac destruct_scrutinee x :=
  lazymatch x with
  | match ?y with _ => _ end => destruct_scrutinee y
  | _ =>
      let x' := eval cbn [is_Exception is_KeyboardInterrupt is_FileNotFoundError
                          is_ValueError_or_KeyError] in x in
      tryif constr_eq x x'
      then lazymatch goal with
           | H : x = _ |- _ => rewrite H
           | _ => tryif is_var x then destruct x else destruct x eqn:?
           end
      else change x with x'
  end.

Ltac wp_step :=
  lazymatch goal with
  | |- wp (mbind _ _) _ _ => apply wp_bind
  | |- wp (mret _) _ _ => apply wp_ret
  | |- wp (print _) _ _ => apply wp_print
  | |- wp (emit _) _ _ => apply wp_emit
  | |- wp (raise _) _ _ => apply wp_raise
  | |- wp (sys_exit _) _ _ => apply wp_sys_exit
  | |- wp (lift _) _ _ => apply wp_lift
  | |- wp (call _ _) _ _ => apply wp_call
  | |- wp (int _ _) _ _ => apply wp_int
  | |- wp (env_get _ _) _ _ => apply wp_env_get
  | |- wp (open_append_write _ _) _ _ => apply wp_open_append_write
  | |- wp (load_env _) _ _ => apply wp_load_env
  | |- wp (try_except _ _) _ _ => apply wp_try_except
  | |- wp (try_finally _ _) _ _ => apply wp_try_finally
  | |- wp (import_telethon _) _ _ => unfold import_telethon
  | |- wp (test_backup_channel _ _ _) _ _ => unfold test_backup_channel
  | |- wp (authorized _ _ _) _ _ => unfold authorized
  | |- wp (setup_failed _) _ _ => unfold setup_failed
  | |- wp (setup_session _) _ _ => unfold setup_session
  | |- wp (main _) _ _ => unfold main
  | |- wp (script _) _ _ => unfold script
  | |- wp (match ?x with _ => _ end) _ _ => destruct_scrutinee x
  | |- match ?x with _ => _ end => destruct_scrutinee x
  end; wp_norm.

Lemma wp_run w (Q : res unit → state → Prop) :
  wp (script w) (initial w) Q → ∀ r st, run w = (r, st) → Q r st.
Proof. unfold wp, run. intros H r st Hr. by rewrite Hr in H. Qed.

Ltac clean_units :=
  repeat match goal with u : unit |- _ => destruct u end.

(** Turn a goal about [run w] into one about [wp (script w)]; the
    postcondition stays folded while the script is executed. *)
Ltac wp_start w :=
  let r := fresh "r" in
  let st := fresh "st" in
  let Hrun := fresh "Hrun" in
  let post := fresh "post" in
  destruct (run w) as [r st] eqn:Hrun; cbn [fst snd];
  revert r st Hrun; apply wp_run; unfold initial;
  lazymatch goal with |- wp _ _ ?Q => set (post := Q) end.

(** Unfold the postcondition and normalise what is left when a run has
    ended. *)
Ltac wp_done :=
  repeat match goal with P := _ : res _ → state → Prop |- _ => subst P end;
  wp_norm; cbn [app from_option id] in *.

(** Execute the script along every path. *)
Ltac wp_run_all w := wp_start w; repeat wp_step; clean_units; wp_done.

Lemma credentials_check z h :
  negb (truthy_int z) || negb (truthy h) = false → z ≠ 0%Z ∧ h ≠ [].
Proof.
  unfold truthy_int. destruct (Z.eqb_spec z 0), h; simpl; try done.
Qed.

Lemma credentials_ok z h :
  z ≠ 0%Z → h ≠ [] → negb (truthy_int z) || negb (truthy h) = false.
Proof. unfold truthy_int. by destruct (Z.eqb_spec z 0), h. Qed.





(** Prefixes and suffixes of explicit lists, by computation. *)
Lemma prefix_by_take {A} (l1 l2 : list A) :
  take (length l1) l2 = l1 → l1 `prefix_of` l2.
Proof. intros <-. apply prefix_take. Qed.



(** [saved] from the equations that the execution of a run leaves. *)
Ltac solve_saved :=
  match goal with H : _ || _ = false |- _ => apply credentials_check in H as [??] end;
  eexists _, _, _; unfold credentials, api_id_text, api_hash, backup_channel;
  repeat split; try eassumption; try reflexivity.

(** The equations of [saved], in the form in which a run meets them. *)
Ltac use_saved H :=
  let Ha := fresh "Ha" in
  let Hh := fresh "Hh" in
  destruct H as (? & ? & ? & (? & ? & ? & Ha & -> & Hh) & -> & ? & ? & ? & ? & ?);
  pose proof (credentials_ok _ _ Ha Hh);
  unfold api_id_text, api_hash, backup_channel in *.

(** ** The file is changed only by the save *)

(** Either the file is what it was, or the login went through to the save
    and the file is the old text followed by the session line. *)
Lemma run_dotenv w :
  dotenv (run w).2 = env_file w
  ∨ ∃ text c s, saved w text c s
      ∧ writes (log (run w).2) = [session_line s]
      ∧ dotenv (run w).2
        = Some (text ++ write_newlines (os_linesep w) (session_line s)).
Proof.
  wp_run_all w.
  all: try (left; congruence).
  all: right; eexists _, _, _; (split; [solve_saved|split; reflexivity]).
Qed.

(** C9: the file is modified only after authorization has succeeded: on
    each of the failure paths before the save, its contents at the end of
    the run are what they were at the start. *)
Theorem dotenv_kept_on_failure w :
  fails_before_save w → dotenv (run w).2 = env_file w.
Proof.
  intros Hfail.
  destruct (run_dotenv w) as [H|(text & c & s & Hsaved & _ & _)]; [done|].
  destruct Hsaved as (a & h & me & (Hf & Hr & Hi & Ha & -> & Hh) & -> & Hs & Hau & Hme & Hsv & Hap).
  exfalso.
  destruct Hfail as [?|?|???|??|??|???|?????]; unfold api_hash in *;
    simplify_eq; try congruence.
  intuition congruence.
Qed.

Lemma dotenv_kept_on_failure_witness :
  let w := Examples.world_with (Some Examples.good_env) Examples.refused_client in
  dotenv (run w).2 = Some Examples.good_env.
Proof.
  intros w. apply (dotenv_kept_on_failure w).
  apply (not_authorized w Examples.good_env 12345); reflexivity.
Defined.

(** ** The file is only appended to *)

Lemma chomp_cons c l : c ≠ LF → chomp (c :: l) = c :: chomp l.
Proof.
  intros Hc. destruct l as [|d l]; [|done]. simpl.
  by destruct (N.eqb_spec c LF).
Qed.

Lemma universal_newlines_nil t : universal_newlines false t = [] → t = [].
Proof.
  destruct t as [|c t]; [done|]. simpl. destruct (c =? CR); [done|].
  by rewrite andb_false_r.
Qed.

Lemma universal_newlines_cons b c r :
  universal_newlines b (c :: r)
  = if c =? CR then LF :: universal_newlines true r
    else if (c =? LF) && b then universal_newlines false r
    else c :: universal_newlines false r.
Proof. done. Qed.

Lemma lines_keepends_cons_LF s : lines_keepends (LF :: s) = [LF] :: lines_keepends s.
Proof. done. Qed.

Lemma lines_keepends_cons c s :
  c ≠ LF →
  lines_keepends (c :: s)
  = match lines_keepends s with [] => [[c]] | l :: ls => (c :: l) :: ls end.
Proof. intros Hc. simpl. by destruct (N.eqb_spec c LF). Qed.

(** Ending a text with a line break keeps its lines. *)
Lemma lines_prefix_newline nl b text :
  universal_newlines false nl = [LF] →
  (chomp <$> lines_keepends (universal_newlines b text))
  `prefix_of` (chomp <$> lines_keepends (universal_newlines b (text ++ nl))).
Proof.
  intros Hnl. revert b. induction text as [|c t IH]; intros b; [apply prefix_nil|].
  rewrite <- app_comm_cons, !universal_newlines_cons.
  destruct (N.eqb_spec c CR) as [->|Hcr].
  { rewrite !lines_keepends_cons_LF, !fmap_cons. apply prefix_cons, IH. }
  destruct (N.eqb_spec c LF) as [->|Hlf]; cbn [andb].
  { destruct b; [apply IH|].
    rewrite !lines_keepends_cons_LF, !fmap_cons. apply prefix_cons, IH. }
  rewrite !lines_keepends_cons by done. specialize (IH false).
  destruct (lines_keepends (universal_newlines false t)) as [|l ls] eqn:E.
  - apply lines_keepends_nil, universal_newlines_nil in E as ->.
    rewrite app_nil_l, Hnl. change (lines_keepends [LF]) with [[LF]].
    lazy beta iota. rewrite !fmap_cons, !chomp_cons by done. done.
  - destruct (lines_keepends (universal_newlines false (t ++ nl))) as [|l' ls'].
    + destruct IH as [k Hk]. done.
    + rewrite !fmap_cons, !chomp_cons by done.
      rewrite !fmap_cons in IH. destruct IH as [k Hk].
      injection Hk as -> ->. by exists k.
Qed.

Lemma universal_newlines_newline sep : universal_newlines false (newline sep) = [LF].
Proof. by destruct sep. Qed.

(** The lines of a file are still there, in order, after the session line
    has been appended. *)
Lemma lines_prefix_session_line sep text s :
  lines text `prefix_of` lines (text ++ write_newlines sep (session_line s)).
Proof.
  unfold lines, session_line. rewrite write_newlines_app.
  fold (newline sep). rewrite readlines_after_newline, fmap_app.
  apply prefix_app_r, lines_prefix_newline, universal_newlines_newline.
Qed.

(** C5: the write to the file is an append: the text of the file at the
    start is a prefix of its text at the end, and so are its lines; the file
    is opened for reading at most once (once when the setup procedure is
    reached) and appended to at most once. *)
Theorem dotenv_append_only w :
  (count is_open_read (log (run w).2) ≤ 1)%nat
  ∧ (bootstrapped w → count is_open_read (log (run w).2) = 1%nat)
  ∧ (count is_open_append (log (run w).2) ≤ 1)%nat
  ∧ (length (writes (log (run w).2)) ≤ 1)%nat
  ∧ match env_file w with
    | None => dotenv (run w).2 = None
    | Some text =>
        ∃ text', dotenv (run w).2 = Some text'
                 ∧ text `prefix_of` text' ∧ lines text `prefix_of` lines text'
    end.
Proof.
  unfold bootstrapped. wp_run_all w.
  all: (split; [cbn; lia|]).
  all: (split; [intros Hb; first [reflexivity | destruct Hb as [[? ?] ?]; congruence]|]).
  all: (split; [cbn; lia|]).
  all: (split; [cbn; lia|]).
  all: try done.
  all: try (destruct (env_file w); [|done]).
  all: eexists; (split; [reflexivity|]).
  all: try (split; reflexivity).
  all: split; [by apply prefix_app_r | apply lines_prefix_session_line].
Qed.

Lemma dotenv_append_only_witness :
  let w := Examples.world_with (Some Examples.good_env) Examples.good_client in
  count is_open_read (log (run w).2) = 1%nat.
Proof.
  intros w. apply (dotenv_append_only w). split; [by eexists|reflexivity].
Defined.

(** ** Failures *)




(** ** Keys read and written *)

Lemma rstrip_cons_nonspace c s : isspace c = false → rstrip (c :: s) = c :: rstrip s.
Proof. intros Hc. simpl. rewrite Hc. by destruct (rstrip s). Qed.

Lemma rstrip_app_nonspace a c s :
  isspace c = false → rstrip (a ++ c :: s) = a ++ c :: rstrip s.
Proof.
  intros Hc. rewrite rstrip_app_nonempty; rewrite rstrip_cons_nonspace; done.
Qed.

(** Read on its own, the text that the script appends is one blank line and
    one line that binds [USER_SESSION_STRING]. *)
Lemma parse_env_session_line sep s :
  one_line s →
  parse_env (write_newlines sep (session_line s))
  = {[ lit "USER_SESSION_STRING" := rstrip s ]}.
Proof.
  intros Hs. unfold parse_env.
  pose proof (readlines_session_line sep [] s Hs) as Hl.
  rewrite !app_nil_l in Hl. rewrite Hl.
  assert (readlines (newline sep) = [[LF]]) as -> by (by destruct sep).
  cbn [app load_env_loop]. rewrite !load_env_body_entry.
  change (entry [LF]) with (@None (str * str)). cbn [mbind res_bind].
  rewrite load_env_body_entry.
  rewrite (entry_key_value _ (lit "USER_SESSION_STRING") (rstrip s)); [done| |done|done].
  replace (lit "USER_SESSION_STRING=" ++ s ++ [LF])
    with ((lit "USER_SESSION_STRING" ++ EQUALS :: s) ++ [LF])
    by (by rewrite <- app_assoc).
  rewrite strip_snoc_space by done. unfold strip.
  change (lstrip (lit "USER_SESSION_STRING" ++ EQUALS :: s))
    with (lit "USER_SESSION_STRING" ++ EQUALS :: s).
  by apply rstrip_app_nonspace.
Qed.

(** C3: the keys that a run looks up are [TELEGRAM_API_ID],
    [TELEGRAM_API_HASH] and [BACKUP_CHANNEL_ID], in that order and no other;
    a run either writes nothing to the file, or has looked up all three and
    writes the one line of [USER_SESSION_STRING]; a run whose login goes
    through does look up the three keys and does write that line, which is
    then the end of the file; read on its own, what is written binds that
    one key. *)
Theorem env_keys_read_and_written w :
  (gets (log (run w).2)
     `prefix_of` [lit "TELEGRAM_API_ID"; lit "TELEGRAM_API_HASH"; lit "BACKUP_CHANNEL_ID"]
   ∧ (writes (log (run w).2) = [] ∧ dotenv (run w).2 = env_file w
      ∨ ∃ text c s,
          saved w text c s
          ∧ gets (log (run w).2)
            = [lit "TELEGRAM_API_ID"; lit "TELEGRAM_API_HASH"; lit "BACKUP_CHANNEL_ID"]
          ∧ writes (log (run w).2) = [session_line s]
          ∧ dotenv (run w).2
            = Some (text ++ write_newlines (os_linesep w) (session_line s))))
  ∧ (∀ text c s,
       bootstrapped w → saved w text c s →
       gets (log (run w).2)
       = [lit "TELEGRAM_API_ID"; lit "TELEGRAM_API_HASH"; lit "BACKUP_CHANNEL_ID"]
       ∧ writes (log (run w).2) = [session_line s]
       ∧ dotenv (run w).2
         = Some (text ++ write_newlines (os_linesep w) (session_line s)))
  ∧ (∀ sep s, one_line s →
       parse_env (write_newlines sep (session_line s))
       = {[ lit "USER_SESSION_STRING" := rstrip s ]}).
Proof.
  split; [|split; [|apply parse_env_session_line]].
  - wp_run_all w.
    all: (split; [by apply prefix_by_take|]).
    all: try (left; split; [reflexivity | congruence]).
    all: right; eexists _, _, _; (split; [solve_saved|repeat split; reflexivity]).
  - intros text c s [[v Hv] Hver] Hsaved. use_saved Hsaved.
    wp_run_all w; try congruence.
    all: repeat split; congruence.
Qed.



(** C8: the command-line arguments have no effect: two runs that differ
    only in them end alike, with the same output and the same file. *)
Theorem run_ignores_argv w1 w2 :
  same_but_argv w1 w2 →
  run w1 = run w2
  ∧ stdout (log (run w1).2) = stdout (log (run w2).2)
  ∧ dotenv (run w1).2 = dotenv (run w2).2.
Proof.
  destruct w1, w2. intros (? & ? & ? & ? & ? & ? & ? & ?). simpl in *. subst.
  repeat split; reflexivity.
Qed.

(** ** Witnesses *)


Lemma good_world_saved :
  saved (Examples.world_with (Some Examples.good_env) Examples.good_client) Examples.good_env Examples.good_client (lit "1BVtsOK4Bu0=").
Proof.
  exists 12345%Z, (lit "0123456789abcdef"), Examples.alice.
  repeat split; try reflexivity; done.
Defined.

Lemma good_world_bootstrapped c : bootstrapped (Examples.world_with (Some Examples.good_env) c).
Proof. split; [by eexists | reflexivity]. Defined.

Lemma env_keys_read_and_written_witness :
  let w := Examples.world_with (Some Examples.good_env) Examples.good_client in
  (gets (log (run w).2)
   = [lit "TELEGRAM_API_ID"; lit "TELEGRAM_API_HASH"; lit "BACKUP_CHANNEL_ID"]
   ∧ writes (log (run w).2) = [session_line (lit "1BVtsOK4Bu0=")]
   ∧ dotenv (run w).2 = Some (Examples.good_env ++ session_line (lit "1BVtsOK4Bu0=")))
  ∧ parse_env (write_newlines Posix (session_line (lit "1BVtsOK4Bu0=")))
    = {[ lit "USER_SESSION_STRING" := lit "1BVtsOK4Bu0=" ]}.
Proof.
  intros w. destruct (env_keys_read_and_written w) as (_ & Hsaved & Hline). split.
  - apply (Hsaved Examples.good_env Examples.good_client (lit "1BVtsOK4Bu0=")).
    + apply good_world_bootstrapped.
    + apply good_world_saved.
  - apply (Hline Posix (lit "1BVtsOK4Bu0=")). split; reflexivity.
Defined.



Lemma run_ignores_argv_witness :
  let w := Examples.world_with (Some Examples.good_env) Examples.good_client in
  run w = run (set_argv [lit "setup_telegram.py"; lit "--help"] w).
Proof.
  intros w. apply (run_ignores_argv w (set_argv [lit "setup_telegram.py"; lit "--help"] w)).
  repeat split.
Defined.

(** ** More on the parser *)

Lemma lstrip_spaces ws s : forallb isspace ws = true → lstrip (ws ++ s) = lstrip s.
Proof.
  induction ws as [|c ws IH]; [done|]. simpl.
  destruct (isspace c); [|done]. apply IH.
Qed.

Lemma strip_app_spaces s ws : forallb isspace ws = true → strip (s ++ ws) = strip s.
Proof.
  induction ws as [|c ws IH] using rev_ind; intros H.
  - by rewrite app_nil_r.
  - rewrite forallb_app in H. apply andb_true_iff in H as [Hws Hc].
    simpl in Hc. rewrite andb_true_r in Hc.
    rewrite app_assoc, strip_snoc_space by done. by apply IH.
Qed.

Lemma strip_padded ws1 s ws2 :
  forallb isspace ws1 = true → forallb isspace ws2 = true →
  strip (ws1 ++ s ++ ws2) = strip s.
Proof.
  intros H1 H2. rewrite app_assoc, strip_app_spaces by done.
  unfold strip. by rewrite lstrip_spaces.
Qed.

Lemma entry_strip_eq raw raw' : strip raw = strip raw' → entry raw = entry raw'.
Proof. unfold entry. by intros ->. Qed.

(** X1: whitespace before and after a line does not matter. *)
Theorem load_env_body_padding env_vars ws1 raw ws2 :
  forallb isspace ws1 = true → forallb isspace ws2 = true →
  load_env_body env_vars (ws1 ++ raw ++ ws2) = load_env_body env_vars raw.
Proof.
  intros H1 H2. rewrite !load_env_body_entry.
  by rewrite (entry_strip_eq _ raw (strip_padded _ _ _ H1 H2)).
Qed.

Lemma load_env_body_padding_witness :
  load_env_body ∅ (lit "   " ++ lit "A=1" ++ [9; CR; LF]) = load_env_body ∅ (lit "A=1").
Proof. apply load_env_body_padding; reflexivity. Defined.

Lemma spaces_no_equals ws : forallb isspace ws = true → contains EQUALS ws = false.
Proof.
  induction ws as [|c ws IH]; [done|]. rewrite contains_cons. simpl.
  destruct (isspace c) eqn:Hc; [|done]. intros H.
  rewrite (IH H), orb_false_r. destruct (N.eqb_spec c EQUALS) as [->|]; done.
Qed.

(** X2: whitespace around the ['='] is kept: the key ends with it and the
    value starts with it, so a lookup of the bare key [k] finds what it
    found before. *)
Theorem load_env_body_spaces_around_equals env_vars k ws1 ws2 v :
  k ≠ [] → strip k = k → contains EQUALS k = false → startswith HASH k = false →
  forallb isspace ws1 = true → ws1 ≠ [] → forallb isspace ws2 = true →
  v ≠ [] → strip v = v →
  load_env_body env_vars (k ++ ws1 ++ EQUALS :: ws2 ++ v)
  = Ret (<[k ++ ws1 := ws2 ++ v]> env_vars)
  ∧ (<[k ++ ws1 := ws2 ++ v]> env_vars) !! k = env_vars !! k.
Proof.
  intros Hk Hsk Hck Hhk Hws1 Hne1 Hws2 Hv Hsv. split.
  - rewrite load_env_body_entry.
    rewrite (entry_key_value _ (k ++ ws1) (ws2 ++ v)); [done| | |].
    + rewrite <- app_assoc. unfold strip.
      apply strip_fixed in Hsk as [Hlk _]. apply strip_fixed in Hsv as [_ Hrv].
      destruct k as [|c k]; [done|]. apply lstrip_fixed_head in Hlk.
      assert (lstrip ((c :: k) ++ ws1 ++ EQUALS :: ws2 ++ v)
              = (c :: k) ++ ws1 ++ EQUALS :: ws2 ++ v) as ->.
      { simpl. by rewrite Hlk. }
      replace ((c :: k) ++ ws1 ++ EQUALS :: ws2 ++ v)
        with (((c :: k) ++ ws1 ++ EQUALS :: ws2) ++ v)
        by (by rewrite <- !app_assoc).
      rewrite rstrip_app_nonempty; rewrite Hrv; done.
    + rewrite contains_app, Hck. by apply spaces_no_equals.
    + by destruct k.
  - apply lookup_insert_ne. intros H. apply (f_equal length) in H.
    rewrite length_app in H. destruct ws1; [done|]. simpl in H. lia.
Qed.

Lemma load_env_body_spaces_around_equals_witness :
  load_env_body ∅ (lit "TELEGRAM_API_ID = 12345")
  = Ret (<[lit "TELEGRAM_API_ID " := lit " 12345"]> ∅)
  ∧ (<[lit "TELEGRAM_API_ID " := lit " 12345"]> (∅ : gmap str str)) !! lit "TELEGRAM_API_ID"
    = (∅ : gmap str str) !! lit "TELEGRAM_API_ID".
Proof.
  apply (load_env_body_spaces_around_equals ∅ (lit "TELEGRAM_API_ID") (lit " ") (lit " ")
           (lit "12345")); done.
Defined.

Lemma chomp_spec raw : chomp raw = raw ∨ raw = chomp raw ++ [LF].
Proof.
  induction raw as [|c r IH]; [by left|].
  destruct r as [|d r].
  - simpl. destruct (N.eqb_spec c LF) as [->|]; [by right | by left].
  - change (chomp (c :: d :: r)) with (c :: chomp (d :: r)).
    destruct IH as [-> | IH]; [by left|]. right. by rewrite IH at 1.
Qed.

Lemma strip_chomp raw : strip (chomp raw) = strip raw.
Proof.
  destruct (chomp_spec raw) as [-> | H]; [done|].
  rewrite H at 2. by rewrite strip_snoc_space.
Qed.

Lemma values_for_chomp key ls : values_for key (chomp <$> ls) = values_for key ls.
Proof.
  induction ls as [|raw ls IH]; [done|].
  rewrite fmap_cons, !values_for_cons, IH.
  by rewrite (entry_strip_eq _ raw (strip_chomp raw)).
Qed.

(** Ending a text with a line break adds at most one blank line to its
    lines. *)
Lemma lines_newline nl b text :
  (∀ b', universal_newlines b' nl = [] ∨ universal_newlines b' nl = [LF]) →
  universal_newlines false nl = [LF] →
  ∃ extra,
    chomp <$> lines_keepends (universal_newlines b (text ++ nl))
    = (chomp <$> lines_keepends (universal_newlines b text)) ++ extra
    ∧ (extra = [] ∨ extra = [[]]).
Proof.
  intros Hany Hnl. revert b. induction text as [|c t IH]; intros b.
  { rewrite app_nil_l. destruct (Hany b) as [-> | ->].
    - exists []. by split; [|left].
    - exists [[]]. by split; [|right]. }
  rewrite <- app_comm_cons, !universal_newlines_cons.
  destruct (N.eqb_spec c CR) as [->|Hcr].
  { destruct (IH true) as (extra & Hx & Hextra). exists extra.
    rewrite !lines_keepends_cons_LF, !fmap_cons, Hx. done. }
  destruct (N.eqb_spec c LF) as [->|Hlf]; cbn [andb].
  { destruct b; [apply IH|].
    destruct (IH false) as (extra & Hx & Hextra). exists extra.
    rewrite !lines_keepends_cons_LF, !fmap_cons, Hx. done. }
  rewrite !lines_keepends_cons by done.
  destruct (IH false) as (extra & Hx & Hextra).
  destruct (lines_keepends (universal_newlines false t)) as [|l ls] eqn:E.
  - apply lines_keepends_nil, universal_newlines_nil in E as ->.
    rewrite app_nil_l, Hnl. change (lines_keepends [LF]) with [[LF]].
    lazy beta iota. exists [].
    rewrite !fmap_cons, (chomp_cons c []), (chomp_cons c [LF]) by done.
    split; [reflexivity | by left].
  - destruct (lines_keepends (universal_newlines false (t ++ nl))) as [|l' ls'].
    + done.
    + rewrite !fmap_cons in Hx. rewrite <- app_comm_cons in Hx.
      injection Hx as Hl Hls. exists extra.
      rewrite !fmap_cons, !chomp_cons by done. rewrite Hl, Hls. done.
Qed.

Lemma values_for_newline sep key text :
  values_for key (readlines (text ++ newline sep)) = values_for key (readlines text).
Proof.
  destruct (lines_newline (newline sep) false text) as (extra & Hx & Hextra).
  { intros []; destruct sep; by (left + right). }
  { apply universal_newlines_newline. }
  rewrite <- (values_for_chomp key (readlines _)). unfold readlines. rewrite Hx.
  rewrite values_for_app, values_for_chomp.
  destruct Hextra as [-> | ->]; [by rewrite app_nil_r|].
  by rewrite app_nil_r.
Qed.

Lemma entry_session_line s :
  entry (lit "USER_SESSION_STRING=" ++ s ++ [LF])
  = Some (lit "USER_SESSION_STRING", rstrip s).
Proof.
  apply entry_key_value; [|done|done].
  replace (lit "USER_SESSION_STRING=" ++ s ++ [LF])
    with ((lit "USER_SESSION_STRING" ++ EQUALS :: s) ++ [LF])
    by (by rewrite <- app_assoc).
  rewrite strip_snoc_space by done. unfold strip.
  change (lstrip (lit "USER_SESSION_STRING" ++ EQUALS :: s))
    with (lit "USER_SESSION_STRING" ++ EQUALS :: s).
  by apply rstrip_app_nonspace.
Qed.

(** What the append does to the mapping: the session line binds
    [USER_SESSION_STRING], overriding an earlier binding of that key, and
    every other binding of the file is kept, whether or not the file ended
    with a line break. *)
Lemma parse_env_append_session_line sep text s :
  one_line s →
  parse_env (text ++ write_newlines sep (session_line s))
  = <[lit "USER_SESSION_STRING" := rstrip s]> (parse_env text).
Proof.
  intros Hs. apply map_eq. intros key.
  rewrite parse_env_lookup, readlines_session_line by done.
  rewrite values_for_app, values_for_newline.
  rewrite values_for_cons, entry_session_line.
  change (values_for key []) with (@nil str). case_decide as Hk.
  - subst key. by rewrite last_snoc, lookup_insert_eq.
  - rewrite lookup_insert_ne by done. by rewrite app_nil_r, parse_env_lookup.
Qed.

Lemma entry_Some raw k v :
  entry raw = Some (k, v)
  ↔ strip raw = k ++ EQUALS :: v ∧ contains EQUALS k = false
    ∧ startswith HASH (strip raw) = false.
Proof.
  split.
  - unfold entry.
    destruct (truthy (strip raw) && negb (startswith HASH (strip raw))) eqn:Ht; [|done].
    apply andb_true_iff in Ht as [_ Hh%negb_true_iff].
    intros [Hs Hk]%partition_spec. done.
  - intros (Hs & Hk & Hh). unfold entry. rewrite Hh, Hs, (partition_app _ _ _ Hk).
    by destruct k.
Qed.

(** X3: a key is missing from the mapping exactly when no line of the file
    binds it. *)
Theorem load_env_missing_key w st text key :
  dotenv st = Some text → read_error w = None →
  ∃ env_vars st',
    load_env w st = (Ret env_vars, st')
    ∧ (env_vars !! key = None
       ↔ ∀ raw v, raw ∈ readlines text →
           ¬ (strip raw = key ++ EQUALS :: v ∧ contains EQUALS key = false
              ∧ startswith HASH (strip raw) = false)).
Proof.
  intros Hf Hr. eexists _, _. split; [by apply load_env_run|].
  rewrite parse_env_lookup, last_None. unfold values_for. split.
  - intros Hnil raw v Hin Hraw%entry_Some.
    assert (v ∈ @nil str) as Hv; [|by apply elem_of_nil in Hv].
    rewrite <- Hnil. apply list_elem_of_omap. exists raw. split; [done|].
    by rewrite Hraw, decide_True.
  - intros Hno. apply elem_of_nil_inv. intros v Hv.
    apply list_elem_of_omap in Hv as (raw & Hin & Hraw).
    destruct (entry raw) as [[k v']|] eqn:E; [|done].
    destruct (decide (k = key)) as [->|]; [|done].
    apply entry_Some in E. by apply (Hno raw v').
Qed.

Lemma load_env_missing_key_witness :
  let w := Examples.world_with (Some Examples.twice_env) Examples.good_client in
  ∃ env_vars st',
    load_env w (initial w) = (Ret env_vars, st')
    ∧ (env_vars !! lit "B" = None
       ↔ ∀ raw v, raw ∈ readlines Examples.twice_env →
           ¬ (strip raw = lit "B" ++ EQUALS :: v ∧ contains EQUALS (lit "B") = false
              ∧ startswith HASH (strip raw) = false)).
Proof.
  intros w.
  apply (load_env_missing_key w (initial w) Examples.twice_env (lit "B")); reflexivity.
Defined.

Lemma universal_newlines_windows t :
  contains CR t = false →
  universal_newlines false (write_newlines Windows t) = universal_newlines false t.
Proof.
  induction t as [|c t IH]; [done|]. rewrite contains_cons. intros H.
  apply orb_false_iff in H as [Hc Ht]. simpl. rewrite Hc.
  destruct (N.eqb_spec c LF) as [->|Hlf]; simpl.
  - by rewrite IH.
  - rewrite Hc. apply N.eqb_neq in Hlf. rewrite Hlf. simpl. by rewrite IH.
Qed.

(** X4: line endings do not matter: a file whose lines end with ["\r\n"] is
    loaded as the same file with ["\n"]. *)
Theorem load_env_windows_line_endings w text l :
  contains CR text = false →
  (load_env w {| dotenv := Some (write_newlines Windows text); log := l |}).1
  = (load_env w {| dotenv := Some text; log := l |}).1.
Proof.
  intros H. destruct (read_error w) as [e|] eqn:Hr.
  - unfold load_env, try_except, open_read, lift, mbind, M_bind. cbn [dotenv].
    rewrite Hr. by destruct (is_FileNotFoundError e).
  - rewrite (load_env_run w _ (write_newlines Windows text)) by done.
    rewrite (load_env_run w _ text) by done.
    unfold parse_env, readlines. by rewrite universal_newlines_windows.
Qed.

Lemma load_env_windows_line_endings_witness :
  let w := Examples.world_with None Examples.good_client in
  (load_env w {| dotenv := Some (write_newlines Windows Examples.good_env); log := [] |}).1
  = (load_env w {| dotenv := Some Examples.good_env; log := [] |}).1.
Proof. intros w. apply (load_env_windows_line_endings w Examples.good_env []). reflexivity. Defined.

(** ** More on runs *)


(** The equations of [credentials], in the form in which a run meets them. *)
Ltac use_credentials H :=
  let Ha := fresh "Ha" in
  let Hh := fresh "Hh" in
  destruct H as (? & ? & ? & Ha & -> & Hh);
  pose proof (credentials_ok _ _ Ha Hh);
  unfold api_id_text, api_hash, backup_channel in *.

(** X5: the branch of [main] that installs [telethon] is never taken: the
    import at the top of the module fails first, so that no run gives a
    command to the system; [main] on its own would run [pip3] and exit
    with status 0. *)
Theorem pip_install_unreachable w :
  commands (log (run w).2) = []
  ∧ (telethon_version w = None →
     run w = (Raise (Exc ImportError (lit "No module named 'telethon'")), initial w))
  ∧ (telethon_version w = None → version_lt (version_info w) 3 6 = false →
     ∀ st, main w st
           = (Raise (SystemExit 0),
              {| dotenv := dotenv st;
                 log := log st
                        ++ [Print (lit "Telethon not installed. Installing...");
                            OsSystem (lit "pip3 install telethon");
                            Print (lit "Telethon installed. Please run the script again.")] |})).
Proof.
  split; [|split].
  - wp_run_all w. all: reflexivity.
  - intros H. unfold run, script, import_telethon. rewrite H. reflexivity.
  - intros H Hv st. unfold main, import_telethon. rewrite H, Hv.
    unfold try_except, print, emit, sys_exit, raise, mbind, M_bind, mret, M_ret.
    cbn [dotenv log]. by rewrite <- !app_assoc.
Qed.

Lemma pip_install_unreachable_witness :
  let w := Faults.without_telethon (Examples.world_with None Examples.good_client) in
  commands (log (run w).2) = []
  ∧ run w = (Raise (Exc ImportError (lit "No module named 'telethon'")), initial w)
  ∧ main w (initial w)
    = (Raise (SystemExit 0),
       {| dotenv := None;
          log := [Print (lit "Telethon not installed. Installing...");
                  OsSystem (lit "pip3 install telethon");
                  Print (lit "Telethon installed. Please run the script again.")] |}).
Proof.
  intros w. destruct (pip_install_unreachable w) as (H1 & H2 & H3).
  split; [exact H1|]. split; [apply H2; reflexivity|].
  apply (H3 eq_refl eq_refl (initial w)).
Defined.

(** X7: of the errors of reading the file only [FileNotFoundError] is
    handled, by [sys.exit(1)]: any other one is the outcome of the run, with
    no client created and the file as it was. *)
Theorem read_error_propagates w text e :
  bootstrapped w → env_file w = Some text → read_error w = Some e →
  (run w).1 = (if is_FileNotFoundError e then Raise (SystemExit 1) else Raise e)
  ∧ attempts (log (run w).2) = [ReadFile]
  ∧ dotenv (run w).2 = env_file w.
Proof.
  intros [[v Hv] Hver] Hf Hr.
  wp_run_all w; try congruence.
  all: repeat split; congruence.
Qed.

Lemma read_error_propagates_witness :
  let w := Faults.unreadable
             (Examples.world_with (Some Examples.good_env) Examples.good_client) in
  (run w).1 = Raise Faults.permission_denied
  ∧ attempts (log (run w).2) = [ReadFile]
  ∧ dotenv (run w).2 = env_file w.
Proof.
  intros w. apply (read_error_propagates w Examples.good_env Faults.permission_denied).
  - split; [by eexists | reflexivity].
  - reflexivity.
  - reflexivity.
Defined.

Ltac solve_order :=
  lazymatch goal with
  | |- ∃ a h id n, _ ∧ _ ∧ calls ?l = _ ∧ _ =>
      let n := eval lazy in (Nat.pred (length (calls l))) in
      first [ (eexists _, _, 0%Z, n; split; [reflexivity|]; split; [lia|]; split; reflexivity)
            | (eexists _, _, _, n; split; [reflexivity|]; split; [lia|]; split; reflexivity) ]
  end.

(** X8: the calls on the client follow one order: a run creates no client
    and makes no call, or it creates one client, calls [start],
    [is_user_authorized], [get_me], [session.save] and [get_entity] in this
    order up to some point, each at most once, and ends with [disconnect]. *)
Theorem client_calls_in_order w :
  (clients (log (run w).2) = [] ∧ calls (log (run w).2) = [])
  ∨ ∃ api_id hash id n,
      clients (log (run w).2) = [(api_id, hash)]
      ∧ (1 ≤ n)%nat
      ∧ calls (log (run w).2)
        = take n [Start; IsUserAuthorized; GetMe; SessionSave; GetEntity id] ++ [Disconnect]
      ∧ last (log (run w).2) = Some (Call Disconnect).
Proof.
  wp_run_all w.
  all: try (left; split; reflexivity).
  all: right; solve_order.
Qed.









(** X13: an error of [client.disconnect()] is the outcome of the run,
    whatever happened before it: also when the session string was saved,
    and also when an error of the login had been reported. *)
Theorem disconnect_error_propagates w text api_id hash e :
  bootstrapped w → credentials w text api_id hash →
  disconnect (TelegramClient w api_id hash) = Raise e →
  (run w).1 = Raise e ∧ last (log (run w).2) = Some (Call Disconnect).
Proof.
  intros [[v Hv] Hver] Hc Hd. use_credentials Hc.
  wp_run_all w; try congruence.
  all: split; [congruence | reflexivity].
Qed.

Lemma disconnect_error_propagates_witness :
  let w := Examples.world_with (Some Examples.good_env) Faults.stuck_client in
  (run w).1 = Raise (Exc OtherException (lit "Cannot send requests while disconnected"))
  ∧ last (log (run w).2) = Some (Call Disconnect).
Proof.
  intros w.
  apply (disconnect_error_propagates w Examples.good_env 12345%Z (lit "0123456789abcdef")).
  - split; [by eexists | reflexivity].
  - repeat split; try reflexivity; done.
  - reflexivity.
Defined.

(** X14: after a successful run the file can be loaded again, and gives what
    it gave before with [USER_SESSION_STRING] bound to the session string:
    every other key keeps its value, an earlier session string is
    overridden, and it does not matter whether the file ended with a line
    break. *)
Theorem session_string_read_back w text c s :
  bootstrapped w → saved w text c s → one_line s →
  ∃ env_vars st0 st1,
    load_env w (initial w) = (Ret env_vars, st0)
    ∧ load_env w (run w).2
      = (Ret (<[lit "USER_SESSION_STRING" := rstrip s]> env_vars), st1).
Proof.
  intros [[v Hv] Hver] Hsaved Hs.
  assert (env_file w = Some text ∧ read_error w = None) as [Hf Hr].
  { by destruct Hsaved as (? & ? & ? & (? & ? & _) & _). }
  assert (dotenv (run w).2
          = Some (text ++ write_newlines (os_linesep w) (session_line s))) as Hd.
  { use_saved Hsaved. wp_run_all w; try congruence.
    all: repeat match goal with H : _ = _ |- _ => rewrite H end; reflexivity. }
  eexists _, _, _. split; [by apply load_env_run|].
  rewrite (load_env_run w _ _ Hd Hr).
  by rewrite (parse_env_append_session_line _ _ _ Hs).
Qed.

Lemma session_string_read_back_witness :
  let w := Examples.world_with (Some Examples.good_env) Examples.good_client in
  ∃ env_vars st0 st1,
    load_env w (initial w) = (Ret env_vars, st0)
    ∧ load_env w (run w).2
      = (Ret (<[lit "USER_SESSION_STRING" := rstrip (lit "1BVtsOK4Bu0=")]> env_vars), st1).
Proof.
  intros w.
  apply (session_string_read_back w Examples.good_env Examples.good_client
           (lit "1BVtsOK4Bu0=")).
  - apply good_world_bootstrapped.
  - apply good_world_saved.
  - split; reflexivity.
Defined.

(** ** The session string goes to the file only *)

(** Normalisation for runs in a world given by its components. *)
Ltac ws_norm :=
  lazy beta iota zeta delta
    [dotenv log fst snd with_session_string
     argv version_info telethon_version os_linesep builtin_int env_file
     read_error append_error TelegramClient
     start is_user_authorized get_me session_save get_entity disconnect].

Ltac ws_run w :=
  wp_start w; repeat (wp_step; ws_norm); clean_units; wp_done.

(** X15: the session string is never printed and decides nothing: two runs
    that differ only in the string that [client.session.save()] returns
    print the same lines, make the same calls on the client and end the
    same way. *)
Theorem session_string_not_printed w s1 s2 :
  stdout (log (run (with_session_string s1 w)).2)
  = stdout (log (run (with_session_string s2 w)).2)
  ∧ calls (log (run (with_session_string s1 w)).2)
    = calls (log (run (with_session_string s2 w)).2)
  ∧ (run (with_session_string s1 w)).1 = (run (with_session_string s2 w)).1.
Proof.
  destruct w as [av vi tv sep bi ef re ae TC].
  match goal with
  | |- context [run (with_session_string s1 ?w)] => ws_run (with_session_string s1 w)
  end.
  all: match goal with |- context [run ?w2] => ws_run w2 end; try congruence.
  all: repeat split; reflexivity.
Qed.
